(** * A shallow embedding of the job-board backend [src/jobs.py]

    The program is a FastAPI application over three SQLAlchemy tables
    ([users], [jobs], [applications]).  Each route handler is embedded as
    a computation in a small state-and-exception monad over the [World]:
    the committed contents of the three tables, the lines printed on
    standard output and the SMTP sessions attempted so far.

    Modelling conventions.
    - Python [str] is [string], Python [int] / SQL [Integer] is [Z].
    - A table is the list of its rows in storage order; a query without
      [order_by] scans that list front to back, so [.first()] is [find]
      and [.all()] is the list itself.
    - SQL [==] on a string column is exact string equality ([String.eqb]);
      the collation and the declared column widths ([String(255)],
      [String(50)]) are settings of the database server and are not
      interpreted.
    - [db.add(x); db.commit()] are adjacent in every handler and are
      embedded as one insert, which checks the constraints that the model
      classes declare (unique, foreign key) and assigns the primary key.
    - An exception that no handler catches leaves the request with the
      exception as its result; what was committed before stays committed. *)

From Stdlib Require Import List String Ascii ZArith Bool Lia.
Import ListNotations.

Open Scope string_scope.
Open Scope Z_scope.

(** ** Exceptions and the handler monad *)

Inductive Exn : Type :=
| HTTPException (status_code : Z) (detail : string)
| AttributeError (msg : string)
| IntegrityError (msg : string)
| OSError (msg : string)
| SMTPException (msg : string)
| RequestValidationError (missing : list string).

Inductive Result (A : Type) : Type :=
| Ok (a : A)
| Raise (e : Exn).

Arguments Ok {A} a.
Arguments Raise {A} e.

(** ** Rows of the three tables (lines 30-50) *)

Record User : Type := mkUser {
  user_id : Z;
  user_email : string;
  user_password : string;
  user_role : string
}.

Record Job : Type := mkJob {
  job_id : Z;
  job_title : string;
  job_description : string;
  job_recruiter_id : Z
}.

Record Application : Type := mkApplication {
  application_id : Z;
  application_candidate_id : Z;
  application_job_id : Z
}.

(** ** The declared schema (lines 30-54)

    The column and relationship declarations of the three model classes,
    kept as data so that the store and attribute access can consult them. *)

Inductive Model : Type := UserModel | JobModel | ApplicationModel.

Definition Model_eqb (a b : Model) : bool :=
  match a, b with
  | UserModel, UserModel => true
  | JobModel, JobModel => true
  | ApplicationModel, ApplicationModel => true
  | _, _ => false
  end.

Definition class_name (m : Model) : string :=
  match m with
  | UserModel => "User"
  | JobModel => "Job"
  | ApplicationModel => "Application"
  end.

Record Column : Type := mkColumn {
  col_model : Model;
  col_name : string;
  col_primary_key : bool;
  col_unique : bool;
  col_nullable : bool;
  col_foreign_key : option (Model * string)
}.

Definition User_id_col : Column :=
  mkColumn UserModel "id" true false false None.
Definition User_email_col : Column :=
  mkColumn UserModel "email" false true false None.
Definition User_password_col : Column :=
  mkColumn UserModel "password" false false false None.
Definition User_role_col : Column :=
  mkColumn UserModel "role" false false false None.

Definition Job_id_col : Column :=
  mkColumn JobModel "id" true false false None.
Definition Job_title_col : Column :=
  mkColumn JobModel "title" false false false None.
Definition Job_description_col : Column :=
  mkColumn JobModel "description" false false false None.
Definition Job_recruiter_id_col : Column :=
  mkColumn JobModel "recruiter_id" false false false (Some (UserModel, "id")).

Definition Application_id_col : Column :=
  mkColumn ApplicationModel "id" true false false None.
Definition Application_candidate_id_col : Column :=
  mkColumn ApplicationModel "candidate_id" false false false
           (Some (UserModel, "id")).
Definition Application_job_id_col : Column :=
  mkColumn ApplicationModel "job_id" false false false (Some (JobModel, "id")).

Definition columns : list Column :=
  [ User_id_col; User_email_col; User_password_col; User_role_col;
    Job_id_col; Job_title_col; Job_description_col; Job_recruiter_id_col;
    Application_id_col; Application_candidate_id_col; Application_job_id_col ].

Record Relationship : Type := mkRelationship {
  rel_model : Model;
  rel_name : string;
  rel_target : Model;
  rel_back_populates : option string
}.

(** Line 43, line 50, lines 52-54, in that order. *)
Definition relationships : list Relationship :=
  [ mkRelationship JobModel "recruiter" UserModel (Some "jobs");
    mkRelationship ApplicationModel "job" JobModel None;
    mkRelationship UserModel "jobs" JobModel (Some "recruiter");
    mkRelationship UserModel "applications" ApplicationModel (Some "candidate");
    mkRelationship ApplicationModel "candidate" UserModel (Some "applications") ].

(** The attributes an instance of a model class has: its columns and the
    relationships declared on that class. *)
Definition mapped_attributes (m : Model) : list string :=
  map col_name (filter (fun c => Model_eqb (col_model c) m) columns)
  ++ map rel_name (filter (fun r => Model_eqb (rel_model r) m) relationships).

Definition hasattr (m : Model) (name : string) : bool :=
  existsb (String.eqb name) (mapped_attributes m).

Definition no_attribute (m : Model) (name : string) : Exn :=
  AttributeError ("'" ++ class_name m ++ "' object has no attribute '"
                  ++ name ++ "'").

Definition none_has_no_attribute (name : string) : Exn :=
  AttributeError ("'NoneType' object has no attribute '" ++ name ++ "'").

(** ** The store *)

Record DB : Type := mkDB {
  users : list User;
  jobs : list Job;
  applications : list Application
}.

Definition empty_db : DB := mkDB [] [] [].

(** Auto-increment primary key: one more than the largest key in use. *)
Definition next_id (ids : list Z) : Z :=
  1 + fold_right Z.max 0 ids.

(** A unique column admits a value only if no stored row carries it. *)
Definition unique_ok {R : Type} (c : Column) (proj : R -> string)
           (rows : list R) (v : string) : bool :=
  if col_unique c then negb (existsb (fun r => proj r =? v)%string rows)
  else true.

(** A foreign-key column admits a value only if the referenced key exists. *)
Definition foreign_key_ok (c : Column) (keys : list Z) (v : Z) : bool :=
  match col_foreign_key c with
  | Some _ => existsb (Z.eqb v) keys
  | None => true
  end.

Definition duplicate_entry : Exn := IntegrityError "Duplicate entry".
Definition foreign_key_fails : Exn :=
  IntegrityError "a foreign key constraint fails".

(** [db.add(User(email=.., password=.., role=..)); db.commit()] *)
Definition insert_user (d : DB) (email password role : string)
  : Result User * DB :=
  if unique_ok User_email_col user_email (users d) email
     && unique_ok User_password_col user_password (users d) password
     && unique_ok User_role_col user_role (users d) role
  then
    let u := mkUser (next_id (map user_id (users d))) email password role in
    (Ok u, mkDB (users d ++ [u]) (jobs d) (applications d))
  else (Raise duplicate_entry, d).

(** [db.add(Job(title=.., description=.., recruiter_id=..)); db.commit()] *)
Definition insert_job (d : DB) (title description : string) (recruiter_id : Z)
  : Result Job * DB :=
  if foreign_key_ok Job_recruiter_id_col (map user_id (users d)) recruiter_id
  then
    let j := mkJob (next_id (map job_id (jobs d))) title description
                   recruiter_id in
    (Ok j, mkDB (users d) (jobs d ++ [j]) (applications d))
  else (Raise foreign_key_fails, d).

(** [db.add(Application(candidate_id=.., job_id=..)); db.commit()] *)
Definition insert_application (d : DB) (candidate job : Z)
  : Result Application * DB :=
  if foreign_key_ok Application_candidate_id_col (map user_id (users d))
                    candidate
     && foreign_key_ok Application_job_id_col (map job_id (jobs d)) job
  then
    let a := mkApplication (next_id (map application_id (applications d)))
                           candidate job in
    (Ok a, mkDB (users d) (jobs d) (applications d ++ [a]))
  else (Raise foreign_key_fails, d).

(** ** The world a request runs in *)

(** What one SMTP session of [send_email] (lines 119-121) does: each of
    its three calls may raise, or the message is handed over. *)
Inductive SmtpOutcome : Type :=
| Delivered
| ConnectRaises (e : string)
| LoginRaises (e : string)
| SendmailRaises (e : string).

(** The mail relay: the outcome of the n-th session ever attempted. *)
Definition Relay : Type := nat -> SmtpOutcome.

Record Mail : Type := mkMail {
  mail_to : string;
  mail_message : string
}.

Record World : Type := mkWorld {
  db : DB;
  stdout : list string;
  smtp_sessions : list (Mail * SmtpOutcome)
}.

Definition initial_world : World := mkWorld empty_db [] [].

Definition M (A : Type) : Type := World -> Result A * World.

Definition ret {A : Type} (a : A) : M A := fun w => (Ok a, w).

Definition raise {A : Type} (e : Exn) : M A := fun w => (Raise e, w).

Definition bind {A B : Type} (m : M A) (k : A -> M B) : M B :=
  fun w =>
    match m w with
    | (Ok a, w') => k a w'
    | (Raise e, w') => (Raise e, w')
    end.

Notation "x <- m ;; k" := (bind m (fun x => k))
  (at level 61, m at next level, right associativity).
Notation "m ;;; k" := (bind m (fun _ => k))
  (at level 61, right associativity).

(** Read the committed tables. *)
Definition query {A : Type} (f : DB -> A) : M A := fun w => (Ok (f w.(db)), w).

(** Run an insert against the store. *)
Definition commit {A : Type} (ins : DB -> Result A * DB) : M A :=
  fun w =>
    let '(r, d) := ins w.(db) in
    (r, mkWorld d w.(stdout) w.(smtp_sessions)).

Definition print (line : string) : M unit :=
  fun w => (Ok tt, mkWorld w.(db) (w.(stdout) ++ [line]) w.(smtp_sessions)).

(** Python [x.attr] where [x] may be [None]. *)
Definition attr_of {A B : Type} (name : string) (f : A -> B) (x : option A)
  : M B :=
  match x with
  | Some a => ret (f a)
  | None => raise (none_has_no_attribute name)
  end.

(** [try: body except Exception as e: handler(e)]: every exception of the
    embedding is an [Exception]; the effects of [body] up to the point
    where it raised are kept. *)
Definition try_except {A : Type} (body : M A) (handler : Exn -> M A) : M A :=
  fun w =>
    match body w with
    | (Ok a, w') => (Ok a, w')
    | (Raise e, w') => handler e w'
    end.

Fixpoint mapM {A B : Type} (f : A -> M B) (l : list A) : M (list B) :=
  match l with
  | [] => ret []
  | x :: xs => y <- f x ;; ys <- mapM f xs ;; ret (y :: ys)
  end.

(** [str(e)] *)
Definition exn_str (e : Exn) : string :=
  match e with
  | HTTPException _ detail => detail
  | AttributeError msg => msg
  | IntegrityError msg => msg
  | OSError msg => msg
  | SMTPException msg => msg
  | RequestValidationError missing => String.concat ", " missing
  end.

(** ** Relationship attributes (lines 43, 50, 52-54)

    Reading [x.name] on an instance consults the declarations of its
    class; a declared relationship loads the related rows through the
    foreign key. *)

Definition getattr_check (m : Model) (name : string) : M unit :=
  if hasattr m name then ret tt else raise (no_attribute m name).

(** [job.recruiter] *)
Definition Job_recruiter (job : Job) : M (option User) :=
  getattr_check JobModel "recruiter" ;;;
  query (fun d => find (fun u => user_id u =? job_recruiter_id job) (users d)).

(** [user.applications] *)
Definition User_applications (user : User) : M (list Application) :=
  getattr_check UserModel "applications" ;;;
  query (fun d => filter (fun a => application_candidate_id a =? user_id user)
                         (applications d)).

(** [application.job] *)
Definition Application_job (application : Application) : M (option Job) :=
  getattr_check ApplicationModel "job" ;;;
  query (fun d => find (fun j => job_id j =? application_job_id application)
                       (jobs d)).

(** [application.candidate] *)
Definition Application_candidate (application : Application)
  : M (option User) :=
  getattr_check ApplicationModel "candidate" ;;;
  query (fun d => find (fun u => user_id u =? application_candidate_id application)
                       (users d)).

(** [job.applications]: the rows listed after the check are the ones a
    relationship of that name on [Job] would load. *)
Definition Job_applications (job : Job) : M (list Application) :=
  getattr_check JobModel "applications" ;;;
  query (fun d => filter (fun a => application_job_id a =? job_id job)
                         (applications d)).

(** ** Request and response bodies (lines 57-72) *)

Record SignupRequest : Type := mkSignupRequest {
  email : string;
  password : string;
  role : string
}.

Record JobPostRequest : Type := mkJobPostRequest {
  title : string;
  description : string
}.

Record JobResponse : Type := mkJobResponse {
  response_id : Z;
  response_title : string;
  response_description : string
}.

Record ApplyRequest : Type := mkApplyRequest {
  request_job_id : Z
}.

(** [{"message": ...}] *)
Record Message : Type := mkMessage { message : string }.

(** [{"access_token": ..., "token_type": ...}] *)
Record Token : Type := mkToken {
  access_token : string;
  token_type : string
}.

Definition not_authorized : Exn := HTTPException 403 "Not authorized".
Definition job_not_found : Exn := HTTPException 404 "Job not found".

(** ** Route handlers (lines 75-169) *)

Definition default : M Message :=
  ret (mkMessage "welcome home").

(** Line 82: the existence check. *)
Definition signup_select (user : SignupRequest) : M (option User) :=
  query (fun d => find (fun u => user_email u =? email user)%string (users d)).

(** Lines 83-89: what [signup] does with the outcome of the check. *)
Definition signup_insert (user : SignupRequest) (existing_user : option User)
  : M Message :=
  match existing_user with
  | Some _ => raise (HTTPException 400 "User already exists")
  | None =>
      commit (fun d => insert_user d (email user) (password user) (role user)) ;;;
      ret (mkMessage "User created successfully")
  end.

Definition signup (user : SignupRequest) : M Message :=
  existing_user <- signup_select user ;;
  signup_insert user existing_user.

Definition login (username pass : string) : M Token :=
  user <-
    query (fun d => find (fun u => (user_email u =? username)%string
                                   && (user_password u =? pass)%string)
                         (users d)) ;;
  match user with
  | None => raise (HTTPException 400 "Invalid credentials")
  | Some user => ret (mkToken (user_email user) "bearer")
  end.

Definition list_jobs (token : string) : M (list Job) :=
  query jobs.

Definition post_job (job : JobPostRequest) (token : string) : M Message :=
  user <-
    query (fun d => find (fun u => user_email u =? token)%string (users d)) ;;
  match user with
  | None => raise not_authorized
  | Some user =>
      if negb (user_role user =? "recruiter")%string then raise not_authorized
      else
        commit (fun d => insert_job d (title job) (description job)
                                    (user_id user)) ;;;
        ret (mkMessage "Job posted successfully")
  end.

Definition newline : string := String "010"%char EmptyString.

(** The body of the [try] block: one SMTP session with the relay. *)
Definition smtp_session (relay : Relay) (to_email msg : string) : M unit :=
  fun w =>
    let outcome := relay (List.length w.(smtp_sessions)) in
    let w' := mkWorld w.(db) w.(stdout)
                      (w.(smtp_sessions) ++ [(mkMail to_email msg, outcome)]) in
    match outcome with
    | Delivered => (Ok tt, w')
    | ConnectRaises e => (Raise (OSError e), w')
    | LoginRaises e => (Raise (SMTPException e), w')
    | SendmailRaises e => (Raise (SMTPException e), w')
    end.

Definition send_email (relay : Relay) (to_email subject body : string)
  : M unit :=
  try_except
    (smtp_session relay to_email
                  ("Subject: " ++ subject ++ newline ++ newline ++ body))
    (fun e => print ("Error sending email: " ++ exn_str e)).

Definition apply_to_job (relay : Relay) (request : ApplyRequest)
           (token : string) : M Message :=
  user <-
    query (fun d => find (fun u => user_email u =? token)%string (users d)) ;;
  match user with
  | None => raise not_authorized
  | Some user =>
      if negb (user_role user =? "candidate")%string then raise not_authorized
      else
        job <-
          query (fun d => find (fun j => job_id j =? request_job_id request)
                               (jobs d)) ;;
        match job with
        | None => raise job_not_found
        | Some job =>
            commit (fun d => insert_application d (user_id user) (job_id job)) ;;;
            recruiter <- Job_recruiter job ;;
            recruiter_email <- attr_of "email" user_email recruiter ;;
            send_email relay recruiter_email "Job Application Received"
                       (user_email user ++ " applied for your job '"
                        ++ job_title job ++ "'") ;;;
            send_email relay (user_email user) "Application Submitted"
                       ("You applied for the job '" ++ job_title job ++ "'") ;;;
            ret (mkMessage "Applied successfully")
        end
  end.

Definition list_applications (token : string) : M (list (option Job)) :=
  user <-
    query (fun d => find (fun u => user_email u =? token)%string (users d)) ;;
  match user with
  | None => raise not_authorized
  | Some user =>
      if negb (user_role user =? "candidate")%string then raise not_authorized
      else
        apps <- User_applications user ;;
        mapM Application_job apps
  end.

Definition list_applicants (job_id_param : Z) (token : string)
  : M (list string) :=
  user <-
    query (fun d => find (fun u => user_email u =? token)%string (users d)) ;;
  match user with
  | None => raise not_authorized
  | Some user =>
      if negb (user_role user =? "recruiter")%string then raise not_authorized
      else
        job <-
          query (fun d => find (fun j => (job_id j =? job_id_param)
                                         && (job_recruiter_id j =? user_id user))
                               (jobs d)) ;;
        match job with
        | None => raise job_not_found
        | Some job =>
            apps <- Job_applications job ;;
            mapM (fun application =>
                    candidate <- Application_candidate application ;;
                    attr_of "email" user_email candidate)
                 apps
        end
  end.

Definition logout : M Message :=
  ret (mkMessage "Logged out successfully").

(** ** The application: routing and the bearer dependency *)

(** [Depends(oauth2_scheme)]: the framework hands the handler the bearer
    parameter of the [Authorization] header, whatever its value, and
    answers 401 itself when the header is absent or not a bearer one.
    [None] stands for such a request. *)
Definition oauth2_scheme (authorization : option string) : M string :=
  match authorization with
  | Some token => ret token
  | None => raise (HTTPException 401 "Not authenticated")
  end.

(** [Depends()] on [OAuth2PasswordRequestForm] (line 93): the framework
    reads the form fields [username] and [password], both required.  A
    form field that is absent or empty counts as missing, and the request
    is then answered 422, naming the missing fields, before the handler
    runs.  An empty string stands for such a field. *)
Definition OAuth2PasswordRequestForm (username pass : string)
  : M (string * string) :=
  match (if (username =? "")%string then ["username"] else [])
        ++ (if (pass =? "")%string then ["password"] else [])
  with
  | [] => ret (username, pass)
  | missing => raise (RequestValidationError missing)
  end%list.

Definition JobResponse_of (j : Job) : JobResponse :=
  mkJobResponse (job_id j) (job_title j) (job_description j).

Inductive Request : Type :=
| GET_root
| POST_signup (body : SignupRequest)
| POST_auth_token (username pass : string)
| GET_jobs (authorization : option string)
| POST_jobs (authorization : option string) (body : JobPostRequest)
| POST_applications (authorization : option string) (body : ApplyRequest)
| GET_applications (authorization : option string)
| GET_applicants (authorization : option string) (job_id_param : Z)
| POST_auth_logout.

Inductive Response : Type :=
| MessageBody (m : Message)
| TokenBody (t : Token)
| JobsBody (l : list JobResponse)
| JobRowsBody (l : list (option Job))
| EmailsBody (l : list string).

Definition app (relay : Relay) (r : Request) : M Response :=
  match r with
  | GET_root => m <- default ;; ret (MessageBody m)
  | POST_signup body => m <- signup body ;; ret (MessageBody m)
  | POST_auth_token username pass =>
      form_data <- OAuth2PasswordRequestForm username pass ;;
      t <- login (fst form_data) (snd form_data) ;;
      ret (TokenBody t)
  | GET_jobs authorization =>
      token <- oauth2_scheme authorization ;;
      l <- list_jobs token ;;
      ret (JobsBody (map JobResponse_of l))
  | POST_jobs authorization body =>
      token <- oauth2_scheme authorization ;;
      m <- post_job body token ;;
      ret (MessageBody m)
  | POST_applications authorization body =>
      token <- oauth2_scheme authorization ;;
      m <- apply_to_job relay body token ;;
      ret (MessageBody m)
  | GET_applications authorization =>
      token <- oauth2_scheme authorization ;;
      l <- list_applications token ;;
      ret (JobRowsBody l)
  | GET_applicants authorization job_id_param =>
      token <- oauth2_scheme authorization ;;
      l <- list_applicants job_id_param token ;;
      ret (EmailsBody l)
  | POST_auth_logout => m <- logout ;; ret (MessageBody m)
  end.

(** The HTTP status the client sees: an [HTTPException] carries its own,
    a request the framework could not validate is answered 422, any other
    exception is an internal server error. *)
Definition status_of {A : Type} (r : Result A) : Z :=
  match r with
  | Ok _ => 200
  | Raise (HTTPException status _) => status
  | Raise (RequestValidationError _) => 422
  | Raise _ => 500
  end.

(** Serving a sequence of requests one after the other. *)
Fixpoint serve (relay : Relay) (rs : list Request) (w : World) : World :=
  match rs with
  | [] => w
  | r :: rest => serve relay rest (snd (app relay r w))
  end.

(** ** Two signups in flight

    The store serialises statements, not requests: the check of one
    signup and its insert are separate round trips, and another request
    may run in between.  [signup_race a b] is the interleaving in which
    both checks run before either insert. *)

Definition attempt {A : Type} (m : M A) : M (Result A) :=
  fun w => let '(r, w') := m w in (Ok r, w').

Definition signup_race (a b : SignupRequest)
  : M (Result Message * Result Message) :=
  existing_a <- signup_select a ;;
  existing_b <- signup_select b ;;
  ra <- attempt (signup_insert a existing_a) ;;
  rb <- attempt (signup_insert b existing_b) ;;
  ret (ra, rb).

(** ** The constraints of the schema as a predicate on the store

    Primary keys are distinct, [users.email] is distinct (the only column
    declared [unique=True]), and every foreign key refers to a stored
    row. *)

Fixpoint distinct {A : Type} (eqb : A -> A -> bool) (l : list A) : bool :=
  match l with
  | [] => true
  | x :: xs => negb (existsb (eqb x) xs) && distinct eqb xs
  end.

Definition constraints_hold (d : DB) : bool :=
  distinct Z.eqb (map user_id (users d))
  && distinct String.eqb (map user_email (users d))
  && distinct Z.eqb (map job_id (jobs d))
  && distinct Z.eqb (map application_id (applications d))
  && forallb (fun j => foreign_key_ok Job_recruiter_id_col
                                      (map user_id (users d))
                                      (job_recruiter_id j))
             (jobs d)
  && forallb (fun a => foreign_key_ok Application_candidate_id_col
                                      (map user_id (users d))
                                      (application_candidate_id a)
                       && foreign_key_ok Application_job_id_col
                                         (map job_id (jobs d))
                                         (application_job_id a))
             (applications d).

Definition db_wf (d : DB) : Prop := constraints_hold d = true.

(** The same constraints, as propositions. *)
Record Constraints (d : DB) : Prop := mkConstraints {
  user_ids_nodup : NoDup (map user_id (users d));
  emails_nodup : NoDup (map user_email (users d));
  job_ids_nodup : NoDup (map job_id (jobs d));
  application_ids_nodup : NoDup (map application_id (applications d));
  recruiter_exists :
    forall j, In j (jobs d) -> In (job_recruiter_id j) (map user_id (users d));
  candidate_exists :
    forall a, In a (applications d) ->
              In (application_candidate_id a) (map user_id (users d));
  applied_job_exists :
    forall a, In a (applications d) ->
              In (application_job_id a) (map job_id (jobs d))
}.

(** One store extends another when each table has only gained rows at its
    end: every stored row is still there, in place and unchanged. *)
Definition extends (d d' : DB) : Prop :=
  (exists us, users d' = (users d ++ us)%list)
  /\ (exists js, jobs d' = (jobs d ++ js)%list)
  /\ (exists new, applications d' = (applications d ++ new)%list).

(** The line [send_email] prints for a session, if any. *)
Definition logged (o : SmtpOutcome) : list string :=
  match o with
  | Delivered => []
  | ConnectRaises e => ["Error sending email: " ++ e]
  | LoginRaises e => ["Error sending email: " ++ e]
  | SendmailRaises e => ["Error sending email: " ++ e]
  end.

(** ** A worked scenario

    Recruiter R signs up and posts a job, candidate C signs up and
    applies to it. *)

Definition recruiter_R : SignupRequest :=
  mkSignupRequest "r@example.com" "secret-r" "recruiter".
Definition candidate_C : SignupRequest :=
  mkSignupRequest "c@example.com" "secret-c" "candidate".
Definition job_J1 : JobPostRequest :=
  mkJobPostRequest "Backend Engineer" "Build the job board".

Definition all_delivered : Relay := fun _ => Delivered.
Definition relay_down : Relay := fun _ => ConnectRaises "Connection refused".

Definition scenario_requests : list Request :=
  [ POST_signup recruiter_R;
    POST_jobs (Some "r@example.com") job_J1;
    POST_signup candidate_C;
    POST_applications (Some "c@example.com") (mkApplyRequest 1) ].

Definition scenario_world : World :=
  Eval cbv in serve all_delivered scenario_requests initial_world.

(** ** Auxiliary notions used in the statements *)

(** One request moves the store by at most one successful insert. *)
Inductive db_step (d : DB) : DB -> Prop :=
| step_none : db_step d d
| step_user e p r u d' :
    insert_user d e p r = (Ok u, d') -> db_step d d'
| step_job t ds rid j d' :
    insert_job d t ds rid = (Ok j, d') -> db_step d d'
| step_application cid jid a d' :
    insert_application d cid jid = (Ok a, d') -> db_step d d'.

Definition application_received (candidate_email job_title : string) : string :=
  "Subject: " ++ "Job Application Received" ++ newline ++ newline
  ++ (candidate_email ++ " applied for your job '" ++ job_title ++ "'").

Definition application_submitted (job_title : string) : string :=
  "Subject: " ++ "Application Submitted" ++ newline ++ newline
  ++ ("You applied for the job '" ++ job_title ++ "'").

(** The world after a successful [apply_to_job]. *)
Definition applied_world (relay : Relay) (w : World) (u r : User) (j : Job)
  : World :=
  let n := List.length (smtp_sessions w) in
  mkWorld
    (mkDB (users (db w)) (jobs (db w))
          (applications (db w)
           ++ [mkApplication
                 (next_id (map application_id (applications (db w))))
                 (user_id u) (job_id j)]))
    (stdout w ++ logged (relay n) ++ logged (relay (S n)))
    (smtp_sessions w
     ++ [(mkMail (user_email r)
                 (application_received (user_email u) (job_title j)),
          relay n);
         (mkMail (user_email u) (application_submitted (job_title j)),
          relay (S n))]).

(** A computation that leaves the tables alone. *)
Definition keeps_db {A : Type} (m : M A) : Prop :=
  forall w, db (snd (m w)) = db w.

(** The credential does not resolve to a user holding [wanted]: it
    resolves to nobody, or to a user with another role. *)
Definition lacks_role (d : DB) (token wanted : string) : Prop :=
  forall u,
    find (fun x => user_email x =? token)%string (users d) = Some u ->
    user_role u <> wanted.

Definition posted_world (w : World) (u : User) (job : JobPostRequest) : World :=
  mkWorld
    (mkDB (users (db w))
          (jobs (db w)
           ++ [mkJob (next_id (map job_id (jobs (db w))))
                     (title job) (description job) (user_id u)])
          (applications (db w)))
    (stdout w) (smtp_sessions w).

(** The rows the scenario stores. *)
Definition row_R : User := mkUser 1 "r@example.com" "secret-r" "recruiter".
Definition row_C : User := mkUser 2 "c@example.com" "secret-c" "candidate".
Definition row_J1 : Job :=
  mkJob 1 "Backend Engineer" "Build the job board" 1.

(** A third account, signed up with a role the handlers do not know. *)
Definition visitor_V : SignupRequest :=
  mkSignupRequest "v@example.com" "secret-v" "admin".
Definition row_V : User := mkUser 3 "v@example.com" "secret-v" "admin".
Definition world_with_visitor : World :=
  Eval cbv in serve all_delivered [POST_signup visitor_V] scenario_world.

(** A relay whose third session fails at login and whose fourth delivers
    (the two sessions of an apply that follows the scenario); every other
    session has its recipient refused. *)
Definition flaky_relay : Relay :=
  fun n => match n with
           | 2%nat => LoginRaises "Authentication failed"
           | 3%nat => Delivered
           | _ => SendmailRaises "Recipient refused"
           end.

(** The routes whose handlers contain no [db.add], no [db.commit], no
    [print] and no call of [send_email]. *)
Definition is_read_only (r : Request) : bool :=
  match r with
  | POST_signup _ => false
  | POST_jobs _ _ => false
  | POST_applications _ _ => false
  | _ => true
  end.

(** Every stored job belongs to a stored user whose role is "recruiter",
    and every stored application to one whose role is "candidate". *)
Definition roles_ok (d : DB) : Prop :=
  (forall j, In j (jobs d) ->
             exists u, In u (users d) /\ user_id u = job_recruiter_id j
                       /\ user_role u = "recruiter")
  /\ (forall a, In a (applications d) ->
                exists u, In u (users d)
                          /\ user_id u = application_candidate_id a
                          /\ user_role u = "candidate").

(** The store after [apply_to_job] has committed its application. *)
Definition applied_db (d : DB) (u : User) (j : Job) : DB :=
  mkDB (users d) (jobs d)
       (applications d
        ++ [mkApplication (next_id (map application_id (applications d)))
                          (user_id u) (job_id j)]).

(** What [list_applications] answers for the user [u]: for each of the
    user's applications, in storage order, the job it refers to. *)
Definition applied_jobs (d : DB) (u : User) : list (option Job) :=
  map (fun a => find (fun j => job_id j =? application_job_id a) (jobs d))
      (filter (fun a => application_candidate_id a =? user_id u)
              (applications d)).

(** The exceptions the handlers raise on purpose. *)
Definition deliberate_errors : list Exn :=
  [ HTTPException 400 "User already exists";
    HTTPException 400 "Invalid credentials";
    HTTPException 401 "Not authenticated";
    HTTPException 403 "Not authorized";
    HTTPException 404 "Job not found" ].

(** * Properties *)

(** ** Lists, keys and lookups *)

Section Keys.
Context {R K : Type}.
Variable key : R -> K.
Variable eqb : K -> K -> bool.
Hypothesis eqb_eq : forall a b, eqb a b = true <-> a = b.

Lemma eqb_refl_key : forall a, eqb a a = true.
Proof. intros a. apply eqb_eq. reflexivity. Qed.

Lemma existsb_key_In :
  forall (l : list K) (k : K), existsb (eqb k) l = true <-> In k l.
Proof.
  intros l k. rewrite existsb_exists. split.
  - intros [x [Hin Hx]]. apply eqb_eq in Hx. subst. exact Hin.
  - intros Hin. exists k. split; [exact Hin | apply eqb_refl_key].
Qed.

Lemma existsb_proj_In :
  forall (l : list R) (k : K),
    existsb (fun r => eqb (key r) k) l = true <-> In k (map key l).
Proof.
  intros l k. rewrite existsb_exists, in_map_iff. split.
  - intros [x [Hin Hx]]. apply eqb_eq in Hx. exists x. auto.
  - intros [x [Hx Hin]]. exists x. split; [exact Hin | now apply eqb_eq].
Qed.

Lemma distinct_NoDup :
  forall l : list K, distinct eqb l = true <-> NoDup l.
Proof.
  induction l as [|x xs IH]; simpl.
  - split; [constructor | reflexivity].
  - rewrite andb_true_iff, negb_true_iff, IH. split.
    + intros [Hx Hxs]. constructor; [|exact Hxs].
      intros Hin. apply existsb_key_In in Hin. congruence.
    + intros Hnd. inversion Hnd as [|? ? Hx Hxs]; subst. split; [|exact Hxs].
      destruct (existsb (eqb x) xs) eqn:E; [|reflexivity].
      apply existsb_key_In in E. contradiction.
Qed.

(** A lookup by key that finds nothing means the key is not stored. *)
Lemma find_key_None :
  forall (l : list R) (k : K),
    find (fun r => eqb (key r) k) l = None <-> ~ In k (map key l).
Proof.
  induction l as [|x xs IH]; intros k; simpl.
  - split; [auto | reflexivity].
  - destruct (eqb (key x) k) eqn:E.
    + apply eqb_eq in E. split; [discriminate | intros H; exfalso; auto].
    + rewrite IH. split.
      * intros H [Hx | Hin]; [|auto].
        apply eqb_eq in Hx. congruence.
      * intros H Hin. apply H. right. exact Hin.
Qed.

(** A lookup by key that finds a row finds a stored row with that key. *)
Lemma find_key_Some :
  forall (l : list R) (k : K) (r : R),
    find (fun r => eqb (key r) k) l = Some r -> In r l /\ key r = k.
Proof.
  intros l k r H. apply find_some in H. destruct H as [Hin Hk].
  split; [exact Hin | now apply eqb_eq].
Qed.

(** When keys are distinct, a lookup by the key of a stored row finds
    that very row. *)
Lemma find_key_unique :
  forall (l : list R) (r : R),
    NoDup (map key l) -> In r l ->
    find (fun x => eqb (key x) (key r)) l = Some r.
Proof.
  induction l as [|x xs IH]; intros r Hnd Hin; simpl in *.
  - contradiction.
  - inversion Hnd as [|? ? Hx Hxs]; subst.
    destruct Hin as [-> | Hin].
    + rewrite eqb_refl_key. reflexivity.
    + destruct (eqb (key x) (key r)) eqn:E.
      * apply eqb_eq in E. exfalso. apply Hx. rewrite E.
        apply in_map. exact Hin.
      * apply IH; assumption.
Qed.

Lemma find_key_In :
  forall (l : list R) (k : K),
    In k (map key l) ->
    exists r, find (fun x => eqb (key x) k) l = Some r.
Proof.
  intros l k Hin.
  destruct (find (fun x => eqb (key x) k) l) as [r|] eqn:E.
  - exists r. reflexivity.
  - apply find_key_None in E. contradiction.
Qed.
End Keys.

Lemma next_id_above : forall (ids : list Z) (x : Z), In x ids -> x < next_id ids.
Proof.
  unfold next_id. induction ids as [|y ys IH]; intros x Hin.
  - contradiction.
  - cbn [fold_right].
    pose proof (Z.le_max_l y (fold_right Z.max 0 ys)) as Hl.
    pose proof (Z.le_max_r y (fold_right Z.max 0 ys)) as Hr.
    destruct Hin as [-> | Hin]; [lia |].
    specialize (IH x Hin). lia.
Qed.

Lemma next_id_fresh : forall ids : list Z, ~ In (next_id ids) ids.
Proof.
  intros ids Hin. apply next_id_above in Hin. lia.
Qed.

Lemma NoDup_snoc :
  forall (A : Type) (l : list A) (x : A), NoDup l -> ~ In x l -> NoDup (l ++ [x]).
Proof.
  intros A l x Hnd Hx. apply NoDup_app.
  - exact Hnd.
  - repeat constructor. simpl. tauto.
  - intros y Hy [<- | []]. exact (Hx Hy).
Qed.

(** ** The constraint check and its propositional reading *)

Lemma recruiter_fk_In :
  forall keys v,
    foreign_key_ok Job_recruiter_id_col keys v = true <-> In v keys.
Proof. intros. apply (existsb_key_In Z.eqb Z.eqb_eq). Qed.

Lemma candidate_fk_In :
  forall keys v,
    foreign_key_ok Application_candidate_id_col keys v = true <-> In v keys.
Proof. intros. apply (existsb_key_In Z.eqb Z.eqb_eq). Qed.

Lemma applied_job_fk_In :
  forall keys v,
    foreign_key_ok Application_job_id_col keys v = true <-> In v keys.
Proof. intros. apply (existsb_key_In Z.eqb Z.eqb_eq). Qed.

Lemma constraints_hold_spec :
  forall d, db_wf d <-> Constraints d.
Proof.
  intros d. unfold db_wf, constraints_hold.
  rewrite !andb_true_iff, !forallb_forall.
  rewrite !(distinct_NoDup Z.eqb Z.eqb_eq).
  rewrite (distinct_NoDup String.eqb String.eqb_eq).
  split.
  - intros [[[[[H1 H2] H3] H4] H5] H6]. constructor; auto.
    + intros j Hj. apply recruiter_fk_In. auto.
    + intros a Ha. specialize (H6 a Ha). apply andb_true_iff in H6.
      apply candidate_fk_In. tauto.
    + intros a Ha. specialize (H6 a Ha). apply andb_true_iff in H6.
      apply applied_job_fk_In. tauto.
  - intros [H1 H2 H3 H4 H5 H6 H7]. repeat split; auto.
    + intros j Hj. apply recruiter_fk_In. auto.
    + intros a Ha. apply andb_true_iff. split.
      * apply candidate_fk_In. auto.
      * apply applied_job_fk_In. auto.
Qed.

Lemma empty_db_wf : db_wf empty_db.
Proof. reflexivity. Qed.

(** ** What the three inserts do *)

(** The only constraint an insert into [users] can violate is the
    uniqueness of the email. *)
Lemma insert_user_fresh :
  forall d e p r,
    ~ In e (map user_email (users d)) ->
    insert_user d e p r =
    (Ok (mkUser (next_id (map user_id (users d))) e p r),
     mkDB (users d ++ [mkUser (next_id (map user_id (users d))) e p r])
          (jobs d) (applications d)).
Proof.
  intros d e p r Hfresh. unfold insert_user, unique_ok. simpl.
  destruct (existsb (fun u => user_email u =? e)%string (users d)) eqn:E.
  - apply (existsb_proj_In user_email String.eqb String.eqb_eq) in E.
    contradiction.
  - reflexivity.
Qed.

Lemma insert_user_duplicate :
  forall d e p r,
    In e (map user_email (users d)) ->
    insert_user d e p r = (Raise duplicate_entry, d).
Proof.
  intros d e p r Hin. unfold insert_user, unique_ok. simpl.
  apply (existsb_proj_In user_email String.eqb String.eqb_eq) in Hin.
  rewrite Hin. reflexivity.
Qed.

Lemma insert_job_owner_stored :
  forall d t ds rid,
    In rid (map user_id (users d)) ->
    insert_job d t ds rid =
    (Ok (mkJob (next_id (map job_id (jobs d))) t ds rid),
     mkDB (users d)
          (jobs d ++ [mkJob (next_id (map job_id (jobs d))) t ds rid])
          (applications d)).
Proof.
  intros d t ds rid Hin. unfold insert_job.
  apply recruiter_fk_In in Hin. rewrite Hin. reflexivity.
Qed.

Lemma insert_application_stored :
  forall d cid jid,
    In cid (map user_id (users d)) ->
    In jid (map job_id (jobs d)) ->
    insert_application d cid jid =
    (Ok (mkApplication (next_id (map application_id (applications d))) cid jid),
     mkDB (users d) (jobs d)
          (applications d
           ++ [mkApplication (next_id (map application_id (applications d)))
                             cid jid])).
Proof.
  intros d cid jid Hc Hj. unfold insert_application.
  apply candidate_fk_In in Hc. apply applied_job_fk_In in Hj.
  rewrite Hc, Hj. reflexivity.
Qed.

Lemma insert_user_inv :
  forall d e p r u d',
    insert_user d e p r = (Ok u, d') ->
    ~ In e (map user_email (users d))
    /\ u = mkUser (next_id (map user_id (users d))) e p r
    /\ d' = mkDB (users d ++ [u]) (jobs d) (applications d).
Proof.
  intros d e p r u d' H.
  destruct (in_dec string_dec e (map user_email (users d))) as [Hin | Hout].
  - rewrite insert_user_duplicate in H by exact Hin. discriminate.
  - rewrite insert_user_fresh in H by exact Hout.
    inversion H; subst. auto.
Qed.

Lemma insert_job_inv :
  forall d t ds rid j d',
    insert_job d t ds rid = (Ok j, d') ->
    In rid (map user_id (users d))
    /\ j = mkJob (next_id (map job_id (jobs d))) t ds rid
    /\ d' = mkDB (users d) (jobs d ++ [j]) (applications d).
Proof.
  intros d t ds rid j d' H. unfold insert_job in H.
  destruct (foreign_key_ok Job_recruiter_id_col (map user_id (users d)) rid)
    eqn:E; [|discriminate].
  apply recruiter_fk_In in E. inversion H; subst. auto.
Qed.

Lemma insert_application_inv :
  forall d cid jid a d',
    insert_application d cid jid = (Ok a, d') ->
    In cid (map user_id (users d))
    /\ In jid (map job_id (jobs d))
    /\ a = mkApplication (next_id (map application_id (applications d)))
                         cid jid
    /\ d' = mkDB (users d) (jobs d) (applications d ++ [a]).
Proof.
  intros d cid jid a d' H. unfold insert_application in H.
  destruct (foreign_key_ok Application_candidate_id_col
                           (map user_id (users d)) cid) eqn:Ec;
    [|discriminate].
  destruct (foreign_key_ok Application_job_id_col (map job_id (jobs d)) jid)
    eqn:Ej; [|discriminate].
  apply candidate_fk_In in Ec. apply applied_job_fk_In in Ej.
  inversion H; subst. auto.
Qed.

Lemma db_step_extends : forall d d', db_step d d' -> extends d d'.
Proof.
  intros d d' H. unfold extends. destruct H as [|e p r u d' H|t ds rid j d' H|cid jid a d' H].
  - repeat split; exists []; symmetry; apply app_nil_r.
  - apply insert_user_inv in H. destruct H as (_ & _ & ->). simpl.
    repeat split; [exists [u]; reflexivity | | ];
      exists []; symmetry; apply app_nil_r.
  - apply insert_job_inv in H. destruct H as (_ & _ & ->). simpl.
    repeat split; [ | exists [j]; reflexivity | ];
      exists []; symmetry; apply app_nil_r.
  - apply insert_application_inv in H. destruct H as (_ & _ & _ & ->). simpl.
    repeat split; [ | | exists [a]; reflexivity];
      exists []; symmetry; apply app_nil_r.
Qed.

Lemma db_step_wf : forall d d', db_step d d' -> db_wf d -> db_wf d'.
Proof.
  intros d d' H Hwf. apply constraints_hold_spec.
  apply constraints_hold_spec in Hwf. destruct Hwf as [H1 H2 H3 H4 H5 H6 H7].
  destruct H as [|e p r u d' H|t ds rid j d' H|cid jid a d' H].
  - constructor; assumption.
  - apply insert_user_inv in H. destruct H as (Hfresh & -> & ->).
    constructor; simpl; rewrite ?map_app; simpl; auto.
    + apply NoDup_snoc; [exact H1 | apply next_id_fresh].
    + apply NoDup_snoc; assumption.
    + intros j Hj. apply in_or_app. left. auto.
    + intros a Ha. apply in_or_app. left. auto.
  - apply insert_job_inv in H. destruct H as (Hrid & -> & ->).
    constructor; simpl; rewrite ?map_app; simpl; auto.
    + apply NoDup_snoc; [exact H3 | apply next_id_fresh].
    + intros j Hj. apply in_app_or in Hj. destruct Hj as [Hj | [<- | []]].
      * auto.
      * exact Hrid.
    + intros a Ha. apply in_or_app. left. auto.
  - apply insert_application_inv in H. destruct H as (Hc & Hj & -> & ->).
    constructor; simpl; rewrite ?map_app; simpl; auto.
    + apply NoDup_snoc; [exact H4 | apply next_id_fresh].
    + intros a Ha. apply in_app_or in Ha. destruct Ha as [Ha | [<- | []]].
      * auto.
      * exact Hc.
    + intros a Ha. apply in_app_or in Ha. destruct Ha as [Ha | [<- | []]].
      * auto.
      * exact Hj.
Qed.

(** ** Lookups under the constraints *)

Lemma same_key_same_row :
  forall (R K : Type) (key : R -> K) (eqb : K -> K -> bool),
    (forall a b, eqb a b = true <-> a = b) ->
    forall (l : list R) (x y : R),
      NoDup (map key l) -> In x l -> In y l -> key x = key y -> x = y.
Proof.
  intros R K key eqb Heqb l x y Hnd Hx Hy Hk.
  pose proof (find_key_unique key eqb Heqb l x Hnd Hx) as Fx.
  pose proof (find_key_unique key eqb Heqb l y Hnd Hy) as Fy.
  rewrite Hk in Fx. congruence.
Qed.

(** The bearer credential of a stored user resolves to that user. *)
Lemma credential_resolves :
  forall d u,
    db_wf d -> In u (users d) ->
    find (fun x => user_email x =? user_email u)%string (users d) = Some u.
Proof.
  intros d u Hwf Hin. apply constraints_hold_spec in Hwf.
  apply (find_key_unique user_email String.eqb String.eqb_eq).
  - apply (emails_nodup d Hwf).
  - exact Hin.
Qed.

Lemma credential_unknown :
  forall d token,
    ~ In token (map user_email (users d)) ->
    find (fun x => user_email x =? token)%string (users d) = None.
Proof.
  intros d token H.
  apply (find_key_None user_email String.eqb String.eqb_eq). exact H.
Qed.

Lemma job_resolves :
  forall d j,
    db_wf d -> In j (jobs d) ->
    find (fun x => job_id x =? job_id j) (jobs d) = Some j.
Proof.
  intros d j Hwf Hin. apply constraints_hold_spec in Hwf.
  apply (find_key_unique job_id Z.eqb Z.eqb_eq).
  - apply (job_ids_nodup d Hwf).
  - exact Hin.
Qed.

Lemma job_unknown :
  forall d jid,
    ~ In jid (map job_id (jobs d)) ->
    find (fun x => job_id x =? jid) (jobs d) = None.
Proof.
  intros d jid H. apply (find_key_None job_id Z.eqb Z.eqb_eq). exact H.
Qed.

(** Every stored job has a stored recruiter, and [job.recruiter] loads it. *)
Lemma recruiter_resolves :
  forall d j,
    db_wf d -> In j (jobs d) ->
    exists r, In r (users d) /\ user_id r = job_recruiter_id j
              /\ find (fun x => user_id x =? job_recruiter_id j) (users d)
                 = Some r.
Proof.
  intros d j Hwf Hin. apply constraints_hold_spec in Hwf.
  pose proof (recruiter_exists d Hwf j Hin) as Hr.
  destruct (find_key_In user_id Z.eqb Z.eqb_eq _ _ Hr) as [r Hfind].
  exists r. apply (find_key_Some user_id Z.eqb Z.eqb_eq) in Hfind as Hs.
  tauto.
Qed.

Lemma role_test :
  forall (r expected : string),
    negb (r =? expected)%string = false <-> r = expected.
Proof.
  intros r expected. rewrite negb_false_iff. apply String.eqb_eq.
Qed.

Lemma role_test_fails :
  forall (r expected : string),
    r <> expected -> negb (r =? expected)%string = true.
Proof.
  intros r expected H. rewrite negb_true_iff. apply String.eqb_neq. exact H.
Qed.

(** ** Effects of the notification helper *)

(** [send_email] always returns normally: it records one SMTP session
    and prints one line exactly when that session raised. *)
Lemma send_email_run :
  forall relay to_email subject body w,
    send_email relay to_email subject body w =
    (Ok tt,
     mkWorld (db w)
             (stdout w ++ logged (relay (List.length (smtp_sessions w))))
             (smtp_sessions w
              ++ [(mkMail to_email
                          ("Subject: " ++ subject ++ newline ++ newline
                                       ++ body),
                   relay (List.length (smtp_sessions w)))])).
Proof.
  intros relay to_email subject body w.
  unfold send_email, try_except, smtp_session, print.
  destruct (relay (List.length (smtp_sessions w))); cbn [db stdout smtp_sessions logged exn_str];
    rewrite ?app_nil_r; reflexivity.
Qed.

Lemma apply_to_job_run :
  forall relay w u j,
    db_wf (db w) -> In u (users (db w)) -> user_role u = "candidate" ->
    In j (jobs (db w)) ->
    exists r,
      In r (users (db w)) /\ user_id r = job_recruiter_id j
      /\ apply_to_job relay (mkApplyRequest (job_id j)) (user_email u) w
         = (Ok (mkMessage "Applied successfully"), applied_world relay w u r j).
Proof.
  intros relay w u j Hwf Hu Hrole Hj.
  destruct (recruiter_resolves _ _ Hwf Hj) as (r & Hr & Hrid & Hfind).
  exists r. split; [exact Hr | split; [exact Hrid |]].
  unfold apply_to_job, bind at 1, query at 1.
  rewrite (credential_resolves _ _ Hwf Hu).
  rewrite (proj2 (role_test _ _) Hrole).
  unfold bind at 1, query at 1. cbn [request_job_id].
  rewrite (job_resolves _ _ Hwf Hj).
  unfold bind at 1, commit.
  rewrite insert_application_stored.
  - unfold bind at 1. unfold Job_recruiter, getattr_check.
    replace (hasattr JobModel "recruiter") with true by reflexivity.
    unfold bind at 1, ret at 1, query. cbn [db users].
    rewrite Hfind. unfold bind at 1, attr_of, ret at 1.
    unfold bind at 1. rewrite send_email_run.
    unfold bind at 1. rewrite send_email_run.
    unfold ret, applied_world, application_received, application_submitted.
    cbn [db stdout smtp_sessions]. rewrite length_app. cbn [List.length].
    rewrite Nat.add_1_r. rewrite <- !app_assoc. reflexivity.
  - apply in_map. exact Hu.
  - apply in_map. exact Hj.
Qed.

(** ** Computations that leave the tables alone *)

Lemma keeps_db_ret : forall (A : Type) (a : A), keeps_db (ret a).
Proof. intros A a w. reflexivity. Qed.

Lemma keeps_db_raise : forall (A : Type) (e : Exn), keeps_db (@raise A e).
Proof. intros A e w. reflexivity. Qed.

Lemma keeps_db_query : forall (A : Type) (f : DB -> A), keeps_db (query f).
Proof. intros A f w. reflexivity. Qed.

Lemma keeps_db_bind :
  forall (A B : Type) (m : M A) (k : A -> M B),
    keeps_db m -> (forall a, keeps_db (k a)) -> keeps_db (bind m k).
Proof.
  intros A B m k Hm Hk w. unfold bind.
  specialize (Hm w). destruct (m w) as [[a | e] w']; simpl in *.
  - rewrite Hk. exact Hm.
  - exact Hm.
Qed.

Lemma keeps_db_attr_of :
  forall (A B : Type) (name : string) (f : A -> B) (x : option A),
    keeps_db (attr_of name f x).
Proof. intros A B name f [a|] w; reflexivity. Qed.

Lemma keeps_db_getattr_check :
  forall (m : Model) (name : string), keeps_db (getattr_check m name).
Proof.
  intros m name w. unfold getattr_check.
  destruct (hasattr m name); reflexivity.
Qed.

Lemma keeps_db_mapM :
  forall (A B : Type) (f : A -> M B) (l : list A),
    (forall a, keeps_db (f a)) -> keeps_db (mapM f l).
Proof.
  intros A B f l Hf. induction l as [|x xs IH]; simpl.
  - apply keeps_db_ret.
  - apply keeps_db_bind; [apply Hf |].
    intros y. apply keeps_db_bind; [exact IH |].
    intros ys. apply keeps_db_ret.
Qed.

Lemma keeps_db_send_email :
  forall relay to_email subject body,
    keeps_db (send_email relay to_email subject body).
Proof. intros relay t s b w. rewrite send_email_run. reflexivity. Qed.

Create HintDb keeps discriminated.
#[local] Hint Resolve keeps_db_ret keeps_db_raise keeps_db_query
  keeps_db_attr_of keeps_db_getattr_check keeps_db_send_email : keeps.

Ltac keeps :=
  repeat first
    [ progress (intros)
    | apply keeps_db_bind
    | apply keeps_db_mapM
    | solve [auto with keeps] ].

Lemma keeps_db_Job_recruiter : forall j, keeps_db (Job_recruiter j).
Proof. unfold Job_recruiter. keeps. Qed.

Lemma keeps_db_login : forall username pass, keeps_db (login username pass).
Proof.
  intros username pass. unfold login. apply keeps_db_bind; [keeps |].
  intros [u|]; keeps.
Qed.

Lemma keeps_db_list_jobs : forall token, keeps_db (list_jobs token).
Proof. intros token. unfold list_jobs. keeps. Qed.

Lemma keeps_db_list_applications :
  forall token, keeps_db (list_applications token).
Proof.
  intros token. unfold list_applications. apply keeps_db_bind; [keeps |].
  intros [u|]; [|keeps].
  destruct (negb (user_role u =? "candidate")%string); [keeps |].
  unfold User_applications, Application_job. keeps.
Qed.

Lemma keeps_db_list_applicants :
  forall jid token, keeps_db (list_applicants jid token).
Proof.
  intros jid token. unfold list_applicants. apply keeps_db_bind; [keeps |].
  intros [u|]; [|keeps].
  destruct (negb (user_role u =? "recruiter")%string); [keeps |].
  apply keeps_db_bind; [keeps |].
  intros [j|]; [|keeps].
  unfold Job_applications, Application_candidate. keeps.
Qed.

(** ** Each request is at most one insert *)

Lemma insert_user_step :
  forall d e p r, db_step d (snd (insert_user d e p r)).
Proof.
  intros d e p r. destruct (insert_user d e p r) as [[u | x] d'] eqn:E; simpl.
  - eapply step_user. exact E.
  - unfold insert_user in E.
    destruct (_ && _) in E; inversion E; subst. constructor.
Qed.

Lemma insert_job_step :
  forall d t ds rid, db_step d (snd (insert_job d t ds rid)).
Proof.
  intros d t ds rid. destruct (insert_job d t ds rid) as [[j | x] d'] eqn:E; simpl.
  - eapply step_job. exact E.
  - unfold insert_job in E.
    destruct (foreign_key_ok _ _ _) in E; inversion E; subst. constructor.
Qed.

Lemma insert_application_step :
  forall d cid jid, db_step d (snd (insert_application d cid jid)).
Proof.
  intros d cid jid.
  destruct (insert_application d cid jid) as [[a | x] d'] eqn:E; simpl.
  - eapply step_application. exact E.
  - unfold insert_application in E.
    destruct (_ && _) in E; inversion E; subst. constructor.
Qed.

(** A commit followed by computations that keep the tables. *)
Lemma commit_then_keeps :
  forall (A B : Type) (ins : DB -> Result A * DB) (k : A -> M B) (w : World),
    (forall a, keeps_db (k a)) ->
    db (snd (bind (commit ins) k w)) = snd (ins (db w)).
Proof.
  intros A B ins k w Hk. unfold bind, commit.
  destruct (ins (db w)) as [[a | e] d']; simpl.
  - rewrite Hk. reflexivity.
  - reflexivity.
Qed.

Lemma signup_step :
  forall user w, db_step (db w) (db (snd (signup user w))).
Proof.
  intros user w. unfold signup, signup_select, bind at 1, query.
  destruct (find _ _) as [u|]; simpl.
  - constructor.
  - rewrite commit_then_keeps by keeps. apply insert_user_step.
Qed.

Lemma post_job_step :
  forall job token w, db_step (db w) (db (snd (post_job job token w))).
Proof.
  intros job token w. unfold post_job, bind at 1, query.
  destruct (find _ _) as [u|]; [|constructor].
  destruct (negb _); [constructor |].
  rewrite commit_then_keeps by keeps. apply insert_job_step.
Qed.

Lemma apply_to_job_step :
  forall relay request token w,
    db_step (db w) (db (snd (apply_to_job relay request token w))).
Proof.
  intros relay request token w. unfold apply_to_job, bind at 1, query at 1.
  destruct (find _ _) as [u|]; [|constructor].
  destruct (negb _); [constructor |].
  unfold bind at 1, query at 1.
  destruct (find _ _) as [j|]; [|constructor].
  rewrite commit_then_keeps.
  - apply insert_application_step.
  - intros _. apply keeps_db_bind; [apply keeps_db_Job_recruiter |]. keeps.
Qed.

Lemma bind_ret_world :
  forall (A B : Type) (m : M A) (f : A -> B) (w : World),
    snd (bind m (fun x => ret (f x)) w) = snd (m w).
Proof.
  intros A B m f w. unfold bind, ret. destruct (m w) as [[a | e] w']; reflexivity.
Qed.

Lemma ret_bind :
  forall (A B : Type) (a : A) (k : A -> M B) (w : World),
    bind (ret a) k w = k a w.
Proof. reflexivity. Qed.

(** The form dependency either hands both fields over or, when one of
    them is empty, answers 422 without touching the world. *)
Lemma form_cases :
  forall username pass w,
    OAuth2PasswordRequestForm username pass w = (Ok (username, pass), w)
    \/ exists missing,
        (username = "" \/ pass = "")
        /\ OAuth2PasswordRequestForm username pass w
           = (Raise (RequestValidationError missing), w).
Proof.
  intros username pass w. unfold OAuth2PasswordRequestForm.
  destruct (String.eqb_spec username "") as [Hu | Hu];
    destruct (String.eqb_spec pass "") as [Hp | Hp]; simpl;
    first [ left; reflexivity
          | right; eexists; split; [tauto | reflexivity] ].
Qed.

Lemma token_route_cases :
  forall username pass w,
    (form_data <- OAuth2PasswordRequestForm username pass ;;
     t <- login (fst form_data) (snd form_data) ;;
     ret (TokenBody t)) w
    = (match fst (login username pass w) with
       | Ok t => Ok (TokenBody t)
       | Raise e => Raise e
       end,
       snd (login username pass w))
    \/ exists missing,
        (username = "" \/ pass = "")
        /\ (form_data <- OAuth2PasswordRequestForm username pass ;;
            t <- login (fst form_data) (snd form_data) ;;
            ret (TokenBody t)) w
           = (Raise (RequestValidationError missing), w).
Proof.
  intros username pass w. unfold bind at 1 3.
  destruct (form_cases username pass w) as [H | (missing & Hempty & H)];
    rewrite H.
  - left. cbn [fst snd]. unfold bind, ret.
    destruct (login username pass w) as [[t | e] w']; reflexivity.
  - right. exists missing. split; [exact Hempty | reflexivity].
Qed.

Lemma app_step :
  forall relay r w, db_step (db w) (db (snd (app relay r w))).
Proof.
  intros relay r w.
  destruct r as [ | body | username pass | [token|] | [token|] body
                  | [token|] body | [token|] | [token|] jid | ];
    cbn [app oauth2_scheme];
    try (constructor; fail).
  - rewrite bind_ret_world. apply signup_step.
  - destruct (token_route_cases username pass w) as [H | (missing & _ & H)];
      rewrite H; cbn [snd]; [rewrite keeps_db_login |]; constructor.
  - rewrite ret_bind, bind_ret_world. apply post_job_step.
  - rewrite ret_bind, bind_ret_world. apply apply_to_job_step.
  - rewrite ret_bind, bind_ret_world, keeps_db_list_applications. constructor.
  - rewrite ret_bind, bind_ret_world, keeps_db_list_applicants. constructor.
Qed.

Lemma extends_refl : forall d, extends d d.
Proof. intros d. apply db_step_extends. constructor. Qed.

Lemma extends_trans :
  forall d1 d2 d3, extends d1 d2 -> extends d2 d3 -> extends d1 d3.
Proof.
  unfold extends.
  intros d1 d2 d3 ([u1 Hu1] & [j1 Hj1] & [a1 Ha1]) ([u2 Hu2] & [j2 Hj2] & [a2 Ha2]).
  repeat split.
  - exists (u1 ++ u2)%list. rewrite Hu2, Hu1. symmetry. apply app_assoc.
  - exists (j1 ++ j2)%list. rewrite Hj2, Hj1. symmetry. apply app_assoc.
  - exists (a1 ++ a2)%list. rewrite Ha2, Ha1. symmetry. apply app_assoc.
Qed.

Lemma serve_extends :
  forall relay rs w, extends (db w) (db (serve relay rs w)).
Proof.
  intros relay rs. induction rs as [|r rest IH]; intros w; simpl.
  - apply extends_refl.
  - eapply extends_trans; [|apply IH].
    apply db_step_extends, app_step.
Qed.

Lemma serve_wf :
  forall relay rs w, db_wf (db w) -> db_wf (db (serve relay rs w)).
Proof.
  intros relay rs. induction rs as [|r rest IH]; intros w Hwf; simpl.
  - exact Hwf.
  - apply IH. eapply db_step_wf; [apply app_step | exact Hwf].
Qed.

(** Every store the application can reach from the empty one satisfies
    the constraints of the schema. *)
Lemma reachable_wf :
  forall relay rs, db_wf (db (serve relay rs initial_world)).
Proof. intros relay rs. apply serve_wf. apply empty_db_wf. Qed.

(** ** The role gate *)

Lemma lacks_role_stored :
  forall d u wanted,
    db_wf d -> In u (users d) -> user_role u <> wanted ->
    lacks_role d (user_email u) wanted.
Proof.
  intros d u wanted Hwf Hin Hrole v Hfind.
  rewrite (credential_resolves _ _ Hwf Hin) in Hfind.
  inversion Hfind; subst. exact Hrole.
Qed.

Lemma lacks_role_unknown :
  forall d token wanted,
    ~ In token (map user_email (users d)) -> lacks_role d token wanted.
Proof.
  intros d token wanted H u Hfind.
  rewrite (credential_unknown _ _ H) in Hfind. discriminate.
Qed.

Lemma post_job_forbidden :
  forall job token w,
    lacks_role (db w) token "recruiter" ->
    post_job job token w = (Raise not_authorized, w).
Proof.
  intros job token w H. unfold post_job, bind at 1, query.
  destruct (find _ _) as [u|] eqn:E; [|reflexivity].
  rewrite (role_test_fails _ _ (H u E)). reflexivity.
Qed.

Lemma apply_to_job_forbidden :
  forall relay request token w,
    lacks_role (db w) token "candidate" ->
    apply_to_job relay request token w = (Raise not_authorized, w).
Proof.
  intros relay request token w H. unfold apply_to_job, bind at 1, query at 1.
  destruct (find _ _) as [u|] eqn:E; [|reflexivity].
  rewrite (role_test_fails _ _ (H u E)). reflexivity.
Qed.

Lemma list_applications_forbidden :
  forall token w,
    lacks_role (db w) token "candidate" ->
    list_applications token w = (Raise not_authorized, w).
Proof.
  intros token w H. unfold list_applications, bind at 1, query at 1.
  destruct (find _ _) as [u|] eqn:E; [|reflexivity].
  rewrite (role_test_fails _ _ (H u E)). reflexivity.
Qed.

Lemma list_applicants_forbidden :
  forall jid token w,
    lacks_role (db w) token "recruiter" ->
    list_applicants jid token w = (Raise not_authorized, w).
Proof.
  intros jid token w H. unfold list_applicants, bind at 1, query at 1.
  destruct (find _ _) as [u|] eqn:E; [|reflexivity].
  rewrite (role_test_fails _ _ (H u E)). reflexivity.
Qed.

(** ** Posting a job *)

Lemma post_job_found :
  forall job token w u,
    find (fun x => user_email x =? token)%string (users (db w)) = Some u ->
    user_role u = "recruiter" ->
    post_job job token w
    = (Ok (mkMessage "Job posted successfully"), posted_world w u job).
Proof.
  intros job token w u Hfind Hrole. unfold post_job, bind at 1, query.
  rewrite Hfind. rewrite (proj2 (role_test _ _) Hrole).
  unfold bind, commit. rewrite insert_job_owner_stored.
  - reflexivity.
  - apply find_some in Hfind. apply in_map. tauto.
Qed.

Lemma post_job_run :
  forall job w u,
    db_wf (db w) -> In u (users (db w)) -> user_role u = "recruiter" ->
    post_job job (user_email u) w
    = (Ok (mkMessage "Job posted successfully"), posted_world w u job).
Proof.
  intros job w u Hwf Hin Hrole.
  apply post_job_found; [apply credential_resolves; assumption | exact Hrole].
Qed.

(** A successful [post_job] is the one described by [post_job_found]. *)
Lemma post_job_ok_inv :
  forall job token w m w1,
    post_job job token w = (Ok m, w1) ->
    exists u, In u (users (db w)) /\ user_email u = token
              /\ user_role u = "recruiter" /\ w1 = posted_world w u job.
Proof.
  intros job token w m w1 H.
  destruct (find (fun x => user_email x =? token)%string (users (db w)))
    as [u|] eqn:E.
  - destruct (string_dec (user_role u) "recruiter") as [Hrole | Hrole].
    + rewrite (post_job_found _ _ _ _ E Hrole) in H. inversion H; subst.
      exists u. apply (find_key_Some user_email String.eqb String.eqb_eq) in E.
      tauto.
    + rewrite post_job_forbidden in H; [discriminate |].
      intros v Hv. rewrite E in Hv. inversion Hv; subst. exact Hrole.
  - rewrite post_job_forbidden in H; [discriminate |].
    intros v Hv. rewrite E in Hv. discriminate.
Qed.

(** ** Listing applicants *)

Lemma find_all_false :
  forall (A : Type) (p : A -> bool) (l : list A),
    (forall x, In x l -> p x = false) -> find p l = None.
Proof.
  intros A p l H. destruct (find p l) as [x|] eqn:E; [|reflexivity].
  apply find_some in E. destruct E as [Hin Hp].
  rewrite (H x Hin) in Hp. discriminate.
Qed.

(** No job with that id belongs to the caller: 404, whether or not some
    other recruiter owns a job with that id. *)
Lemma list_applicants_not_owned :
  forall w u jid,
    db_wf (db w) -> In u (users (db w)) -> user_role u = "recruiter" ->
    (forall j, In j (jobs (db w)) -> job_id j = jid ->
               job_recruiter_id j <> user_id u) ->
    list_applicants jid (user_email u) w = (Raise job_not_found, w).
Proof.
  intros w u jid Hwf Hin Hrole Hnone.
  unfold list_applicants, bind at 1, query at 1.
  rewrite (credential_resolves _ _ Hwf Hin).
  rewrite (proj2 (role_test _ _) Hrole).
  unfold bind at 1, query at 1.
  rewrite find_all_false; [reflexivity |].
  intros j Hj. apply andb_false_iff.
  destruct (Z.eqb_spec (job_id j) jid) as [Heq | Hne]; [right | left; reflexivity].
  apply Z.eqb_neq. exact (Hnone j Hj Heq).
Qed.

(** The caller owns a job with that id: the handler reads [job.applications],
    an attribute that [Job] does not have. *)
Lemma list_applicants_owned :
  forall w u j,
    db_wf (db w) -> In u (users (db w)) -> user_role u = "recruiter" ->
    In j (jobs (db w)) -> job_recruiter_id j = user_id u ->
    list_applicants (job_id j) (user_email u) w
    = (Raise (AttributeError "'Job' object has no attribute 'applications'"),
       w).
Proof.
  intros w u j Hwf Hin Hrole Hj Hown.
  unfold list_applicants, bind at 1, query at 1.
  rewrite (credential_resolves _ _ Hwf Hin).
  rewrite (proj2 (role_test _ _) Hrole).
  unfold bind at 1, query at 1.
  destruct (find _ (jobs (db w))) as [j'|] eqn:E.
  - reflexivity.
  - apply find_none with (x := j) in E; [|exact Hj].
    rewrite Z.eqb_refl, Hown, Z.eqb_refl in E. discriminate.
Qed.

Lemma scenario_world_served :
  scenario_world = serve all_delivered scenario_requests initial_world.
Proof. reflexivity. Qed.

(** Claim C1 (list_applicants): with a recruiter's credential and the id
    of a job that recruiter owns, the handler is expected to return the
    emails of the candidates who applied.  In the scenario where R posted
    job 1 and C applied to it, R's call does not return [C's email]: it
    raises AttributeError (an internal server error, status 500), because
    [Job] declares no [applications] relationship.  A job id that R does
    not own is answered 404 as claimed. *)
Theorem list_applicants_scenario :
  hasattr JobModel "applications" = false
  /\ list_applicants 1 "r@example.com" scenario_world
     = (Raise (AttributeError "'Job' object has no attribute 'applications'"),
        scenario_world)
  /\ fst (list_applicants 1 "r@example.com" scenario_world)
     <> Ok ["c@example.com"]
  /\ status_of (fst (app all_delivered (GET_applicants (Some "r@example.com") 1)
                         scenario_world)) = 500
  /\ list_applicants 2 "r@example.com" scenario_world
     = (Raise (HTTPException 404 "Job not found"), scenario_world).
Proof.
  split; [reflexivity |].
  split; [reflexivity |].
  split; [discriminate |].
  split; reflexivity.
Qed.

(** ** Accounts *)

(** Claim C3 (signup): when a user with the submitted email is already
    stored, [signup] raises HTTPException 400 and the world is unchanged;
    otherwise it appends exactly one row to [users], carrying the
    submitted email, password and role as they are and a fresh key, and
    answers "User created successfully". *)
Theorem signup_conflict_or_create :
  forall (user : SignupRequest) (w : World),
    (In (email user) (map user_email (users (db w))) ->
     signup user w = (Raise (HTTPException 400 "User already exists"), w))
    /\ (~ In (email user) (map user_email (users (db w))) ->
        signup user w
        = (Ok (mkMessage "User created successfully"),
           mkWorld
             (mkDB (users (db w)
                    ++ [mkUser (next_id (map user_id (users (db w))))
                               (email user) (password user) (role user)])
                   (jobs (db w)) (applications (db w)))
             (stdout w) (smtp_sessions w))).
Proof.
  intros user w. split; intros H.
  - unfold signup, signup_select, bind, query.
    destruct (find _ _) as [u|] eqn:E; [reflexivity |].
    apply (find_key_None user_email String.eqb String.eqb_eq) in E.
    contradiction.
  - unfold signup, signup_select, bind at 1, query.
    rewrite (credential_unknown _ _ H).
    unfold signup_insert, bind, commit.
    rewrite (insert_user_fresh _ _ _ _ H). reflexivity.
Qed.

Lemma signup_conflict_or_create_witness :
  (~ In "r@example.com" (map user_email (users (db initial_world)))
   /\ signup recruiter_R initial_world
      = (Ok (mkMessage "User created successfully"),
         mkWorld (mkDB [row_R] [] []) [] []))
  /\ (In "r@example.com" (map user_email (users (db scenario_world)))
      /\ signup (mkSignupRequest "r@example.com" "other" "candidate")
                scenario_world
         = (Raise (HTTPException 400 "User already exists"), scenario_world)).
Proof.
  split.
  - assert (H : ~ In (email recruiter_R)
                     (map user_email (users (db initial_world))))
      by (simpl; tauto).
    split; [exact H |].
    exact (proj2 (signup_conflict_or_create recruiter_R initial_world) H).
  - assert (H : In (email (mkSignupRequest "r@example.com" "other" "candidate"))
                   (map user_email (users (db scenario_world))))
      by (simpl; tauto).
    split; [exact H |].
    exact (proj1 (signup_conflict_or_create _ scenario_world) H).
Defined.



(** ** Jobs *)

(** Claim C5 (post_job): on a store satisfying the schema, a credential
    that resolves to no user, or to a user whose role is not "recruiter"
    (a candidate in particular), is answered HTTPException 403 and
    nothing changes, so no job is created; a recruiter's credential
    appends one job carrying the submitted title and description and the
    recruiter's own id as [recruiter_id], and is answered "Job posted
    successfully". *)
Theorem post_job_requires_recruiter :
  forall (w : World) (job : JobPostRequest),
    db_wf (db w) ->
    (forall token,
        ~ In token (map user_email (users (db w))) ->
        post_job job token w = (Raise (HTTPException 403 "Not authorized"), w))
    /\ (forall u,
           In u (users (db w)) -> user_role u <> "recruiter" ->
           post_job job (user_email u) w
           = (Raise (HTTPException 403 "Not authorized"), w))
    /\ (forall u,
           In u (users (db w)) -> user_role u = "recruiter" ->
           post_job job (user_email u) w
           = (Ok (mkMessage "Job posted successfully"),
              mkWorld
                (mkDB (users (db w))
                      (jobs (db w)
                       ++ [mkJob (next_id (map job_id (jobs (db w))))
                                 (title job) (description job) (user_id u)])
                      (applications (db w)))
                (stdout w) (smtp_sessions w))).
Proof.
  intros w job Hwf. repeat split.
  - intros token H. apply post_job_forbidden, lacks_role_unknown, H.
  - intros u Hin Hrole. apply post_job_forbidden.
    apply lacks_role_stored; assumption.
  - intros u Hin Hrole. apply post_job_run; assumption.
Qed.

Lemma post_job_requires_recruiter_witness :
  db_wf (db scenario_world)
  /\ post_job job_J1 "nobody@example.com" scenario_world
     = (Raise (HTTPException 403 "Not authorized"), scenario_world)
  /\ post_job job_J1 "c@example.com" scenario_world
     = (Raise (HTTPException 403 "Not authorized"), scenario_world)
  /\ jobs (db (snd (post_job job_J1 "r@example.com" scenario_world)))
     = [row_J1; mkJob 2 "Backend Engineer" "Build the job board" 1].
Proof.
  assert (Hwf : db_wf (db scenario_world)) by reflexivity.
  destruct (post_job_requires_recruiter scenario_world job_J1 Hwf)
    as (Hnone & Hother & Hrec).
  split; [exact Hwf |]. split; [|split].
  - apply Hnone. simpl. intros [H | [H | []]]; discriminate.
  - apply (Hother row_C); [simpl; tauto | discriminate].
  - assert (Hin : In row_R (users (db scenario_world))) by (simpl; tauto).
    specialize (Hrec row_R Hin eq_refl).
    change (user_email row_R) with "r@example.com" in Hrec.
    rewrite Hrec. reflexivity.
Defined.

(** Claim C7 (list_jobs): a request without a bearer header is answered
    401 by the dependency; with a bearer header, whatever the token, the
    handler resolves nothing and the answer lists every stored job, in
    storage order, each as its own id, its title and its description,
    changing nothing.  Hence a job that [post_job] has stored appears,
    with the id it was given and the posted title and description, in the
    answer to any later [GET /jobs] carrying any token. *)
Theorem list_jobs_any_bearer :
  forall (relay : Relay) (w : World),
    app relay (GET_jobs None) w
    = (Raise (HTTPException 401 "Not authenticated"), w)
    /\ (forall token,
           list_jobs token w = (Ok (jobs (db w)), w)
           /\ app relay (GET_jobs (Some token)) w
              = (Ok (JobsBody
                       (map (fun j => mkJobResponse (job_id j) (job_title j)
                                                    (job_description j))
                            (jobs (db w)))),
                 w))
    /\ (forall body credential m w1,
           post_job body credential w = (Ok m, w1) ->
           forall rs token,
           exists l,
             app relay (GET_jobs (Some token)) (serve relay rs w1)
             = (Ok (JobsBody l), serve relay rs w1)
             /\ In (mkJobResponse (next_id (map job_id (jobs (db w))))
                                  (title body) (description body))
                   l).
Proof.
  intros relay w. split; [reflexivity |]. split.
  - intros token. split; reflexivity.
  - intros body credential m w1 Hpost rs token.
    apply post_job_ok_inv in Hpost. destruct Hpost as (u & _ & _ & _ & ->).
    destruct (serve_extends relay rs (posted_world w u body))
      as (_ & [js Hjs] & _).
    exists (map (fun j => mkJobResponse (job_id j) (job_title j)
                                        (job_description j))
                (jobs (db (serve relay rs (posted_world w u body))))).
    split; [reflexivity |].
    rewrite Hjs. cbn [posted_world db jobs].
    rewrite !map_app. apply in_or_app. left. apply in_or_app. right.
    simpl. left. reflexivity.
Qed.

Lemma list_jobs_any_bearer_witness :
  post_job job_J1 "r@example.com" scenario_world
  = (Ok (mkMessage "Job posted successfully"),
     posted_world scenario_world row_R job_J1)
  /\ exists l,
      app relay_down (GET_jobs (Some "not-a-user"))
          (serve relay_down
                 [POST_applications (Some "c@example.com") (mkApplyRequest 2)]
                 (posted_world scenario_world row_R job_J1))
      = (Ok (JobsBody l),
         serve relay_down
               [POST_applications (Some "c@example.com") (mkApplyRequest 2)]
               (posted_world scenario_world row_R job_J1))
      /\ In (mkJobResponse 2 "Backend Engineer" "Build the job board") l.
Proof.
  assert (Hpost : post_job job_J1 "r@example.com" scenario_world
                  = (Ok (mkMessage "Job posted successfully"),
                     posted_world scenario_world row_R job_J1))
    by reflexivity.
  split; [exact Hpost |].
  exact (proj2 (proj2 (list_jobs_any_bearer relay_down scenario_world))
               job_J1 "r@example.com" _ _ Hpost
               [POST_applications (Some "c@example.com") (mkApplyRequest 2)]
               "not-a-user").
Defined.

(** ** Applications *)

(** Claim C2 (apply): on a store satisfying the schema, for every stored
    user with role "candidate": applying to a stored job succeeds and
    appends exactly one application linking the candidate's id and the
    job's id, leaving users and jobs as they were; applying again to the
    same job succeeds again and appends a second such application; and
    applying with an id that no stored job has raises HTTPException 404
    and changes nothing. *)
Theorem apply_creates_one_application_each_time :
  forall (relay : Relay) (w : World) (u : User),
    db_wf (db w) -> In u (users (db w)) -> user_role u = "candidate" ->
    (forall j,
        In j (jobs (db w)) ->
        let request := mkApplyRequest (job_id j) in
        let first := apply_to_job relay request (user_email u) w in
        let second := apply_to_job relay request (user_email u) (snd first) in
        let a1 := mkApplication
                    (next_id (map application_id (applications (db w))))
                    (user_id u) (job_id j) in
        let a2 := mkApplication
                    (next_id (map application_id (applications (db w) ++ [a1])))
                    (user_id u) (job_id j) in
        fst first = Ok (mkMessage "Applied successfully")
        /\ db (snd first)
           = mkDB (users (db w)) (jobs (db w)) (applications (db w) ++ [a1])
        /\ fst second = Ok (mkMessage "Applied successfully")
        /\ db (snd second)
           = mkDB (users (db w)) (jobs (db w))
                  (applications (db w) ++ [a1; a2])
        /\ application_id a1 <> application_id a2)
    /\ (forall jid,
           ~ In jid (map job_id (jobs (db w))) ->
           apply_to_job relay (mkApplyRequest jid) (user_email u) w
           = (Raise (HTTPException 404 "Job not found"), w)).
Proof.
  intros relay w u Hwf Hu Hrole. split.
  - intros j Hj request first second a1 a2.
    destruct (apply_to_job_run relay w u j Hwf Hu Hrole Hj)
      as (r & Hr & Hrid & Hfirst).
    assert (Hw1 : snd first = applied_world relay w u r j)
      by (unfold first, request; rewrite Hfirst; reflexivity).
    assert (Hwf1 : db_wf (db (snd first))).
    { unfold first. eapply db_step_wf; [apply apply_to_job_step | exact Hwf]. }
    rewrite Hw1 in Hwf1.
    destruct (apply_to_job_run relay (applied_world relay w u r j) u j Hwf1 Hu
                               Hrole Hj)
      as (r' & Hr' & Hrid' & Hsecond).
    unfold second. rewrite Hw1. unfold first, request.
    rewrite Hfirst, Hsecond. cbn [fst snd applied_world db users jobs applications].
    repeat split.
    + rewrite <- app_assoc. reflexivity.
    + unfold a2, a1. cbn [application_id]. rewrite map_app.
      cbn [map application_id]. intros Heq.
      apply (next_id_fresh
               (map application_id (applications (db w))
                ++ [next_id (map application_id (applications (db w)))])).
      rewrite <- Heq. apply in_or_app. right. left. reflexivity.
  - intros jid Hjid. unfold apply_to_job, bind at 1, query at 1.
    rewrite (credential_resolves _ _ Hwf Hu).
    rewrite (proj2 (role_test _ _) Hrole).
    unfold bind, query. cbn [request_job_id].
    rewrite (job_unknown _ _ Hjid). reflexivity.
Qed.

Lemma apply_creates_one_application_each_time_witness :
  db_wf (db scenario_world)
  /\ In row_C (users (db scenario_world))
  /\ user_role row_C = "candidate"
  /\ In row_J1 (jobs (db scenario_world))
  /\ applications
       (db (snd (apply_to_job relay_down (mkApplyRequest 1) "c@example.com"
                   (snd (apply_to_job relay_down (mkApplyRequest 1)
                                      "c@example.com" scenario_world)))))
     = [mkApplication 1 2 1; mkApplication 2 2 1; mkApplication 3 2 1]
  /\ apply_to_job relay_down (mkApplyRequest 7) "c@example.com" scenario_world
     = (Raise (HTTPException 404 "Job not found"), scenario_world).
Proof.
  assert (Hwf : db_wf (db scenario_world)) by reflexivity.
  assert (Hu : In row_C (users (db scenario_world))) by (simpl; tauto).
  assert (Hj : In row_J1 (jobs (db scenario_world))) by (simpl; tauto).
  destruct (apply_creates_one_application_each_time
              relay_down scenario_world row_C Hwf Hu eq_refl)
    as [Hok Hmissing].
  split; [exact Hwf |]. split; [exact Hu |]. split; [reflexivity |].
  split; [exact Hj |]. split.
  - destruct (Hok row_J1 Hj) as (_ & _ & _ & Hdb & _).
    exact (f_equal applications Hdb).
  - apply (Hmissing 7). simpl. intros [H | []]. discriminate.
Defined.

(** Claim C6 (notifications in apply): on a store satisfying the schema,
    for every stored candidate and stored job and whatever the relay does
    in the two SMTP sessions, [apply_to_job] answers "Applied
    successfully" and the application is committed; the answer and the
    tables are the same under any other relay.  The two sessions go to
    the job's recruiter and to the candidate, in that order, and each
    session that raised leaves exactly its "Error sending email" line on
    standard output and nothing else. *)
Theorem notification_failures_suppressed :
  forall (relay : Relay) (w : World) (u : User) (j : Job),
    db_wf (db w) -> In u (users (db w)) -> user_role u = "candidate" ->
    In j (jobs (db w)) ->
    let n := List.length (smtp_sessions w) in
    let request := mkApplyRequest (job_id j) in
    let out := apply_to_job relay request (user_email u) w in
    fst out = Ok (mkMessage "Applied successfully")
    /\ db (snd out)
       = mkDB (users (db w)) (jobs (db w))
              (applications (db w)
               ++ [mkApplication
                     (next_id (map application_id (applications (db w))))
                     (user_id u) (job_id j)])
    /\ (forall relay',
           fst (apply_to_job relay' request (user_email u) w) = fst out
           /\ db (snd (apply_to_job relay' request (user_email u) w))
              = db (snd out))
    /\ stdout (snd out) = (stdout w ++ logged (relay n) ++ logged (relay (S n)))%list
    /\ exists r,
        In r (users (db w)) /\ user_id r = job_recruiter_id j
        /\ smtp_sessions (snd out)
           = (smtp_sessions w
              ++ [(mkMail (user_email r)
                          (application_received (user_email u) (job_title j)),
                   relay n);
                  (mkMail (user_email u)
                          (application_submitted (job_title j)),
                   relay (S n))])%list.
Proof.
  intros relay w u j Hwf Hu Hrole Hj n request out.
  destruct (apply_to_job_run relay w u j Hwf Hu Hrole Hj)
    as (r & Hr & Hrid & Hrun).
  unfold out, request. rewrite Hrun. cbn [fst snd applied_world db stdout smtp_sessions].
  repeat split.
  - destruct (apply_to_job_run relay' w u j Hwf Hu Hrole Hj)
      as (r' & _ & _ & Hrun').
    rewrite Hrun'. reflexivity.
  - destruct (apply_to_job_run relay' w u j Hwf Hu Hrole Hj)
      as (r' & _ & _ & Hrun').
    rewrite Hrun'. reflexivity.
  - exists r. repeat split; assumption.
Qed.

Lemma notification_failures_suppressed_witness :
  db_wf (db scenario_world)
  /\ In row_C (users (db scenario_world))
  /\ user_role row_C = "candidate"
  /\ In row_J1 (jobs (db scenario_world))
  /\ fst (apply_to_job flaky_relay (mkApplyRequest 1) "c@example.com"
                       scenario_world)
     = Ok (mkMessage "Applied successfully")
  /\ stdout (snd (apply_to_job flaky_relay (mkApplyRequest 1) "c@example.com"
                               scenario_world))
     = ["Error sending email: Authentication failed"].
Proof.
  assert (Hwf : db_wf (db scenario_world)) by reflexivity.
  assert (Hu : In row_C (users (db scenario_world))) by (simpl; tauto).
  assert (Hj : In row_J1 (jobs (db scenario_world))) by (simpl; tauto).
  destruct (notification_failures_suppressed
              flaky_relay scenario_world row_C row_J1 Hwf Hu eq_refl Hj)
    as (Hok & _ & _ & Hout & _).
  split; [exact Hwf |]. split; [exact Hu |]. split; [reflexivity |].
  split; [exact Hj |]. split; [exact Hok | exact Hout].
Defined.

(** ** Stored rows never change *)

(** Claim C8 (immutability): whatever request is served, and whatever
    sequence of requests, each table afterwards is the table before with
    rows added at its end, so no stored user, job or application is ever
    updated or deleted; a request changes the store by at most one
    insert.  [logout] answers without touching the world, so every
    request, with every credential, is answered after a logout as it
    would have been before it. *)
Theorem records_immutable :
  forall (relay : Relay) (w : World),
    (forall r,
        db_step (db w) (db (snd (app relay r w)))
        /\ extends (db w) (db (snd (app relay r w))))
    /\ (forall rs, extends (db w) (db (serve relay rs w)))
    /\ logout w = (Ok (mkMessage "Logged out successfully"), w)
    /\ snd (app relay POST_auth_logout w) = w
    /\ (forall r,
           app relay r (snd (app relay POST_auth_logout w)) = app relay r w).
Proof.
  intros relay w. split; [|split; [|split; [|split]]].
  - intros r. split; [apply app_step | apply db_step_extends, app_step].
  - intros rs. apply serve_extends.
  - reflexivity.
  - reflexivity.
  - intros r. reflexivity.
Qed.

(** ** The unique constraint on [users.email] *)

(** Claim C9 (schema-level uniqueness): the [email] column of [User] is
    declared unique, and the store enforces that declaration by itself:
    inserting a user whose email is already stored raises IntegrityError
    and stores nothing, with no help from the handler.  In particular,
    when two signups with the same, not yet registered email both run
    their existence check before either inserts, both checks find
    nothing, the first insert succeeds, the second is rejected by the
    constraint, and exactly one row with that email is stored. *)
Theorem email_unique_at_store_level :
  col_unique User_email_col = true
  /\ (forall d e p r,
         In e (map user_email (users d)) ->
         insert_user d e p r = (Raise (IntegrityError "Duplicate entry"), d))
  /\ (forall a b w,
         email a = email b ->
         ~ In (email a) (map user_email (users (db w))) ->
         signup_select a w = (Ok None, w)
         /\ signup_select b w = (Ok None, w)
         /\ signup_race a b w
            = (Ok (Ok (mkMessage "User created successfully"),
                   Raise (IntegrityError "Duplicate entry")),
               mkWorld
                 (mkDB (users (db w)
                        ++ [mkUser (next_id (map user_id (users (db w))))
                                   (email a) (password a) (role a)])
                       (jobs (db w)) (applications (db w)))
                 (stdout w) (smtp_sessions w))).
Proof.
  split; [reflexivity |]. split.
  - intros d e p r Hin. apply insert_user_duplicate. exact Hin.
  - intros a b w Hsame Hfresh.
    assert (Ha : signup_select a w = (Ok None, w)).
    { unfold signup_select, query. rewrite (credential_unknown _ _ Hfresh).
      reflexivity. }
    assert (Hb : signup_select b w = (Ok None, w)).
    { unfold signup_select, query. rewrite <- Hsame.
      rewrite (credential_unknown _ _ Hfresh). reflexivity. }
    split; [exact Ha | split; [exact Hb |]].
    unfold signup_race. unfold bind at 1. rewrite Ha.
    unfold bind at 1. rewrite Hb.
    unfold bind at 1, attempt at 1, signup_insert at 1, bind at 1, commit at 1.
    rewrite (insert_user_fresh _ _ _ _ Hfresh).
    cbn [ret db stdout smtp_sessions].
    unfold bind, attempt, signup_insert, bind, commit.
    cbn [db stdout smtp_sessions].
    rewrite insert_user_duplicate.
    + reflexivity.
    + cbn [users]. rewrite map_app. apply in_or_app. right.
      simpl. left. exact Hsame.
Qed.

Lemma email_unique_at_store_level_witness :
  In "r@example.com" (map user_email (users (db scenario_world)))
  /\ insert_user (db scenario_world) "r@example.com" "other" "candidate"
     = (Raise (IntegrityError "Duplicate entry"), db scenario_world)
  /\ ~ In (email recruiter_R) (map user_email (users (db initial_world)))
  /\ fst (signup_race recruiter_R
                      (mkSignupRequest "r@example.com" "other" "candidate")
                      initial_world)
     = Ok (Ok (mkMessage "User created successfully"),
           Raise (IntegrityError "Duplicate entry"))
  /\ users (db (snd (signup_race
                       recruiter_R
                       (mkSignupRequest "r@example.com" "other" "candidate")
                       initial_world)))
     = [row_R].
Proof.
  destruct email_unique_at_store_level as (_ & Hdup & Hrace).
  assert (Hin : In "r@example.com"
                   (map user_email (users (db scenario_world))))
    by (simpl; tauto).
  assert (Hfresh : ~ In (email recruiter_R)
                         (map user_email (users (db initial_world))))
    by (simpl; tauto).
  split; [exact Hin |]. split; [exact (Hdup _ _ "other" "candidate" Hin) |].
  split; [exact Hfresh |].
  destruct (Hrace recruiter_R
                  (mkSignupRequest "r@example.com" "other" "candidate")
                  initial_world eq_refl Hfresh)
    as (_ & _ & Hrun).
  split.
  - exact (f_equal fst Hrun).
  - exact (f_equal (fun x => users (db (snd x))) Hrun).
Defined.

(** ** Roles the handlers do not know *)

(** Claim C10 (role check first): on a store satisfying the schema, for
    every stored user whose role is neither "recruiter" nor "candidate",
    [post_job], [apply_to_job], [list_applications] and [list_applicants]
    called with that user's credential each raise HTTPException 403 and
    leave the world unchanged, for every request body and every job id,
    stored or not: the role is checked before the job is looked up. *)
Theorem other_roles_forbidden_everywhere :
  forall (relay : Relay) (w : World) (u : User),
    db_wf (db w) -> In u (users (db w)) ->
    user_role u <> "recruiter" -> user_role u <> "candidate" ->
    (forall job,
        post_job job (user_email u) w
        = (Raise (HTTPException 403 "Not authorized"), w))
    /\ (forall request,
           apply_to_job relay request (user_email u) w
           = (Raise (HTTPException 403 "Not authorized"), w))
    /\ list_applications (user_email u) w
       = (Raise (HTTPException 403 "Not authorized"), w)
    /\ (forall jid,
           list_applicants jid (user_email u) w
           = (Raise (HTTPException 403 "Not authorized"), w)).
Proof.
  intros relay w u Hwf Hin Hrec Hcand.
  pose proof (lacks_role_stored _ _ _ Hwf Hin Hrec) as Lrec.
  pose proof (lacks_role_stored _ _ _ Hwf Hin Hcand) as Lcand.
  split; [|split; [|split]].
  - intros job. apply post_job_forbidden. exact Lrec.
  - intros request. apply apply_to_job_forbidden. exact Lcand.
  - apply list_applications_forbidden. exact Lcand.
  - intros jid. apply list_applicants_forbidden. exact Lrec.
Qed.

Lemma other_roles_forbidden_everywhere_witness :
  db_wf (db world_with_visitor)
  /\ In row_V (users (db world_with_visitor))
  /\ user_role row_V <> "recruiter"
  /\ user_role row_V <> "candidate"
  /\ apply_to_job all_delivered (mkApplyRequest 99) "v@example.com"
                  world_with_visitor
     = (Raise (HTTPException 403 "Not authorized"), world_with_visitor)
  /\ list_applicants 99 "v@example.com" world_with_visitor
     = (Raise (HTTPException 403 "Not authorized"), world_with_visitor).
Proof.
  assert (Hwf : db_wf (db world_with_visitor)) by reflexivity.
  assert (Hin : In row_V (users (db world_with_visitor))) by (simpl; tauto).
  assert (Hrec : user_role row_V <> "recruiter") by discriminate.
  assert (Hcand : user_role row_V <> "candidate") by discriminate.
  destruct (other_roles_forbidden_everywhere
              all_delivered world_with_visitor row_V Hwf Hin Hrec Hcand)
    as (_ & Happly & _ & Happlicants).
  split; [exact Hwf |]. split; [exact Hin |]. split; [exact Hrec |].
  split; [exact Hcand |]. split; [exact (Happly _) | exact (Happlicants 99)].
Defined.

(** * Further properties of the handlers *)

(** ** Every way a handler can end *)

Lemma find_app_Some :
  forall (A : Type) (p : A -> bool) (l l' : list A) (x : A),
    find p l = Some x -> find p (l ++ l') = Some x.
Proof.
  intros A p l l' x. induction l as [|y ys IH]; simpl.
  - discriminate.
  - destruct (p y); [auto | exact IH].
Qed.


Lemma signup_cases :
  forall user w,
    (In (email user) (map user_email (users (db w)))
     /\ signup user w = (Raise (HTTPException 400 "User already exists"), w))
    \/ (~ In (email user) (map user_email (users (db w)))
        /\ signup user w
           = (Ok (mkMessage "User created successfully"),
              mkWorld
                (mkDB (users (db w)
                       ++ [mkUser (next_id (map user_id (users (db w))))
                                  (email user) (password user) (role user)])
                      (jobs (db w)) (applications (db w)))
                (stdout w) (smtp_sessions w))).
Proof.
  intros user w.
  destruct (in_dec string_dec (email user) (map user_email (users (db w))))
    as [Hin | Hout]; [left | right]; (split; [assumption |]).
  - destruct (find_key_In user_email String.eqb String.eqb_eq _ _ Hin)
      as [u Hfind].
    unfold signup, signup_select, bind, query. rewrite Hfind. reflexivity.
  - unfold signup, signup_select, bind at 1, query.
    rewrite (credential_unknown _ _ Hout).
    unfold signup_insert, bind, commit.
    rewrite (insert_user_fresh _ _ _ _ Hout). reflexivity.
Qed.

Lemma login_cases :
  forall username pass w,
    login username pass w
    = (Raise (HTTPException 400 "Invalid credentials"), w)
    \/ exists u, In u (users (db w)) /\ user_email u = username
                 /\ user_password u = pass
                 /\ login username pass w
                    = (Ok (mkToken username "bearer"), w).
Proof.
  intros username pass w. unfold login, bind, query.
  destruct (find _ _) as [u|] eqn:E; [right | left; reflexivity].
  apply find_some in E. destruct E as [Hin Hmatch].
  apply andb_true_iff in Hmatch. destruct Hmatch as [He Hp].
  apply String.eqb_eq in He. apply String.eqb_eq in Hp.
  exists u. rewrite He. auto.
Qed.

Lemma post_job_cases :
  forall job token w,
    post_job job token w = (Raise not_authorized, w)
    \/ exists u, In u (users (db w)) /\ user_email u = token
                 /\ user_role u = "recruiter"
                 /\ find (fun x => user_email x =? token)%string
                         (users (db w)) = Some u
                 /\ post_job job token w
                    = (Ok (mkMessage "Job posted successfully"),
                       posted_world w u job).
Proof.
  intros job token w.
  destruct (find (fun x => user_email x =? token)%string (users (db w)))
    as [u|] eqn:E.
  - destruct (string_dec (user_role u) "recruiter") as [Hrole | Hrole].
    + right. exists u.
      pose proof (find_key_Some user_email String.eqb String.eqb_eq _ _ _ E)
        as [Hin He].
      repeat (split; [assumption |]). split; [reflexivity |].
      apply post_job_found; assumption.
    + left. apply post_job_forbidden.
      intros v Hv. rewrite E in Hv. inversion Hv; subst. exact Hrole.
  - left. apply post_job_forbidden.
    intros v Hv. rewrite E in Hv. discriminate.
Qed.

(** [apply_to_job] once the caller and the job have been found. *)
Lemma apply_to_job_found :
  forall relay request token w u j,
    find (fun x => user_email x =? token)%string (users (db w)) = Some u ->
    user_role u = "candidate" ->
    find (fun x => job_id x =? request_job_id request) (jobs (db w)) = Some j ->
    apply_to_job relay request token w
    = match find (fun x => user_id x =? job_recruiter_id j) (users (db w)) with
      | Some r => (Ok (mkMessage "Applied successfully"),
                   applied_world relay w u r j)
      | None => (Raise (none_has_no_attribute "email"),
                 mkWorld (applied_db (db w) u j) (stdout w) (smtp_sessions w))
      end.
Proof.
  intros relay request token w u j Hu Hrole Hj.
  unfold apply_to_job, bind at 1, query at 1.
  rewrite Hu. rewrite (proj2 (role_test _ _) Hrole).
  unfold bind at 1, query at 1. rewrite Hj.
  unfold bind at 1, commit.
  rewrite insert_application_stored.
  - unfold bind at 1. unfold Job_recruiter, getattr_check.
    replace (hasattr JobModel "recruiter") with true by reflexivity.
    unfold bind at 1, ret at 1, query. cbn [db users].
    destruct (find (fun x => user_id x =? job_recruiter_id j) (users (db w)))
      as [r|].
    + unfold bind at 1, attr_of, ret at 1.
      unfold bind at 1. rewrite send_email_run.
      unfold bind at 1. rewrite send_email_run.
      unfold ret, applied_world, application_received, application_submitted.
      cbn [db stdout smtp_sessions]. rewrite length_app. cbn [List.length].
      rewrite Nat.add_1_r. rewrite <- !app_assoc. reflexivity.
    + reflexivity.
  - apply find_some in Hu. apply in_map. tauto.
  - apply find_some in Hj. apply in_map. tauto.
Qed.

Lemma apply_to_job_cases :
  forall relay request token w,
    apply_to_job relay request token w = (Raise not_authorized, w)
    \/ apply_to_job relay request token w = (Raise job_not_found, w)
    \/ exists u j,
        find (fun x => user_email x =? token)%string (users (db w)) = Some u
        /\ user_role u = "candidate"
        /\ find (fun x => job_id x =? request_job_id request) (jobs (db w))
           = Some j.
Proof.
  intros relay request token w.
  destruct (find (fun x => user_email x =? token)%string (users (db w)))
    as [u|] eqn:Eu.
  - destruct (string_dec (user_role u) "candidate") as [Hrole | Hrole].
    + destruct (find (fun x => job_id x =? request_job_id request)
                     (jobs (db w))) as [j|] eqn:Ej.
      * right. right. exists u, j. auto.
      * right. left. unfold apply_to_job, bind at 1, query at 1.
        rewrite Eu. rewrite (proj2 (role_test _ _) Hrole).
        unfold bind, query. rewrite Ej. reflexivity.
    + left. apply apply_to_job_forbidden.
      intros v Hv. rewrite Eu in Hv. inversion Hv; subst. exact Hrole.
  - left. apply apply_to_job_forbidden.
    intros v Hv. rewrite Eu in Hv. discriminate.
Qed.

Lemma mapM_Application_job :
  forall apps w,
    mapM Application_job apps w
    = (Ok (map (fun a => find (fun j => job_id j =? application_job_id a)
                              (jobs (db w)))
               apps),
       w).
Proof.
  induction apps as [|a rest IH]; intros w; simpl.
  - reflexivity.
  - unfold bind at 1. unfold Application_job at 1, getattr_check.
    replace (hasattr ApplicationModel "job") with true by reflexivity.
    unfold bind at 1, ret at 1, query.
    unfold bind at 1. rewrite IH. reflexivity.
Qed.

Lemma list_applications_found :
  forall token w u,
    find (fun x => user_email x =? token)%string (users (db w)) = Some u ->
    user_role u = "candidate" ->
    list_applications token w = (Ok (applied_jobs (db w) u), w).
Proof.
  intros token w u Hu Hrole.
  unfold list_applications, bind at 1, query at 1.
  rewrite Hu. rewrite (proj2 (role_test _ _) Hrole).
  unfold bind at 1, User_applications, getattr_check.
  replace (hasattr UserModel "applications") with true by reflexivity.
  unfold bind at 1, ret at 1, query.
  rewrite mapM_Application_job. reflexivity.
Qed.

Lemma list_applications_cases :
  forall token w,
    list_applications token w = (Raise not_authorized, w)
    \/ exists u, In u (users (db w)) /\ user_email u = token
                 /\ user_role u = "candidate"
                 /\ list_applications token w
                    = (Ok (applied_jobs (db w) u), w).
Proof.
  intros token w.
  destruct (find (fun x => user_email x =? token)%string (users (db w)))
    as [u|] eqn:Eu.
  - destruct (string_dec (user_role u) "candidate") as [Hrole | Hrole].
    + right. exists u.
      pose proof (find_key_Some user_email String.eqb String.eqb_eq _ _ _ Eu)
        as [Hin He].
      repeat (split; [assumption |]).
      apply list_applications_found; assumption.
    + left. apply list_applications_forbidden.
      intros v Hv. rewrite Eu in Hv. inversion Hv; subst. exact Hrole.
  - left. apply list_applications_forbidden.
    intros v Hv. rewrite Eu in Hv. discriminate.
Qed.

Lemma list_applicants_found :
  forall jid token w u,
    find (fun x => user_email x =? token)%string (users (db w)) = Some u ->
    user_role u = "recruiter" ->
    list_applicants jid token w
    = match find (fun j => (job_id j =? jid)
                           && (job_recruiter_id j =? user_id u))
                 (jobs (db w)) with
      | Some _ => (Raise (no_attribute JobModel "applications"), w)
      | None => (Raise job_not_found, w)
      end.
Proof.
  intros jid token w u Hu Hrole.
  unfold list_applicants, bind at 1, query at 1.
  rewrite Hu. rewrite (proj2 (role_test _ _) Hrole).
  unfold bind at 1, query at 1.
  destruct (find _ (jobs (db w))) as [j|]; reflexivity.
Qed.

Lemma list_applicants_cases :
  forall jid token w,
    list_applicants jid token w = (Raise not_authorized, w)
    \/ list_applicants jid token w = (Raise job_not_found, w)
    \/ list_applicants jid token w
       = (Raise (no_attribute JobModel "applications"), w).
Proof.
  intros jid token w.
  destruct (find (fun x => user_email x =? token)%string (users (db w)))
    as [u|] eqn:Eu.
  - destruct (string_dec (user_role u) "recruiter") as [Hrole | Hrole].
    + rewrite (list_applicants_found _ _ _ _ Eu Hrole).
      destruct (find _ (jobs (db w))) as [j|]; auto.
    + left. apply list_applicants_forbidden.
      intros v Hv. rewrite Eu in Hv. inversion Hv; subst. exact Hrole.
  - left. apply list_applicants_forbidden.
    intros v Hv. rewrite Eu in Hv. discriminate.
Qed.

Lemma apply_to_job_db :
  forall relay request token w,
    db (snd (apply_to_job relay request token w)) = db w
    \/ exists u j,
        In u (users (db w)) /\ user_role u = "candidate"
        /\ In j (jobs (db w))
        /\ db (snd (apply_to_job relay request token w)) = applied_db (db w) u j.
Proof.
  intros relay request token w.
  destruct (apply_to_job_cases relay request token w)
    as [H | [H | (u & j & Hu & Hrole & Hj)]].
  - left. rewrite H. reflexivity.
  - left. rewrite H. reflexivity.
  - right. exists u, j.
    rewrite (apply_to_job_found _ _ _ _ _ _ Hu Hrole Hj).
    apply find_some in Hu. apply find_some in Hj.
    repeat (split; [tauto |]).
    destruct (find (fun x => user_id x =? job_recruiter_id j) (users (db w)));
      reflexivity.
Qed.

Lemma bind_ret_run :
  forall (A B : Type) (m : M A) (f : A -> B) (w : World),
    bind m (fun x => ret (f x)) w
    = (match fst (m w) with Ok a => Ok (f a) | Raise e => Raise e end,
       snd (m w)).
Proof.
  intros A B m f w. unfold bind, ret. destruct (m w) as [[a | e] w']; reflexivity.
Qed.

(** The store after one request: untouched, or one user, one job or one
    application added, the last two for a caller holding the right role. *)
Lemma app_db_cases :
  forall relay r w,
    db (snd (app relay r w)) = db w
    \/ (exists e p ro,
           db (snd (app relay r w))
           = mkDB (users (db w)
                   ++ [mkUser (next_id (map user_id (users (db w)))) e p ro])
                  (jobs (db w)) (applications (db w)))
    \/ (exists u job,
           In u (users (db w)) /\ user_role u = "recruiter"
           /\ db (snd (app relay r w)) = db (posted_world w u job))
    \/ (exists u j,
           In u (users (db w)) /\ user_role u = "candidate"
           /\ In j (jobs (db w))
           /\ db (snd (app relay r w)) = applied_db (db w) u j).
Proof.
  intros relay r w.
  destruct r as [ | body | username pass | [token|] | [token|] body
                  | [token|] body | [token|] | [token|] jid | ];
    cbn [app oauth2_scheme];
    rewrite ?ret_bind, ?bind_ret_run; cbn [snd];
    try (left; reflexivity).
  - destruct (signup_cases body w) as [[_ H] | [_ H]]; rewrite H.
    + left. reflexivity.
    + right. left. exists (email body), (password body), (role body).
      reflexivity.
  - left. destruct (token_route_cases username pass w) as [H | (missing & _ & H)];
      rewrite H; cbn [snd]; [apply keeps_db_login | reflexivity].
  - destruct (post_job_cases body token w)
      as [H | (u & Hin & _ & Hrole & _ & H)]; rewrite H.
    + left. reflexivity.
    + right. right. left. exists u, body. auto.
  - destruct (apply_to_job_db relay body token w) as [H | H].
    + left. exact H.
    + right. right. right. exact H.
  - left. apply keeps_db_list_applications.
  - left. apply keeps_db_list_applicants.
Qed.

(** ** Invariants of the store *)

(** X1: the constraints that the schema declares (distinct primary keys,
    distinct emails, foreign keys that resolve) hold after every request
    and after every sequence of requests served on a store where they
    hold, whatever the requests are and however they are answered. *)
Theorem schema_constraints_are_kept :
  forall (relay : Relay) (w : World),
    db_wf (db w) ->
    (forall r, db_wf (db (snd (app relay r w))))
    /\ (forall rs, db_wf (db (serve relay rs w))).
Proof.
  intros relay w Hwf. split.
  - intros r. eapply db_step_wf; [apply app_step | exact Hwf].
  - intros rs. apply serve_wf. exact Hwf.
Qed.

Lemma schema_constraints_are_kept_witness :
  db_wf (db initial_world)
  /\ db_wf (db (serve relay_down
                      (scenario_requests
                       ++ [POST_signup recruiter_R;
                           POST_applications (Some "c@example.com")
                                             (mkApplyRequest 1)])
                      initial_world)).
Proof.
  assert (Hwf : db_wf (db initial_world)) by reflexivity.
  split; [exact Hwf |].
  exact (proj2 (schema_constraints_are_kept relay_down initial_world Hwf) _).
Defined.

Lemma roles_ok_step :
  forall relay r w, roles_ok (db w) -> roles_ok (db (snd (app relay r w))).
Proof.
  intros relay r w [Hjobs Happs].
  destruct (app_db_cases relay r w)
    as [H | [(e & p & ro & H) | [(u & job & Hu & Hrole & H)
                                | (u & j & Hu & Hrole & Hj & H)]]];
    rewrite H; clear H.
  - split; assumption.
  - split; cbn [users jobs applications].
    + intros j Hj. destruct (Hjobs j Hj) as (u & Hu & Hid & Hrole).
      exists u. split; [apply in_or_app; left; exact Hu | auto].
    + intros a Ha. destruct (Happs a Ha) as (u & Hu & Hid & Hrole).
      exists u. split; [apply in_or_app; left; exact Hu | auto].
  - split; cbn [posted_world db users jobs applications].
    + intros j Hj. apply in_app_or in Hj. destruct Hj as [Hj | [<- | []]].
      * apply Hjobs. exact Hj.
      * exists u. auto.
    + exact Happs.
  - split; cbn [applied_db users jobs applications].
    + exact Hjobs.
    + intros a Ha. apply in_app_or in Ha. destruct Ha as [Ha | [<- | []]].
      * apply Happs. exact Ha.
      * exists u. auto.
Qed.

(** X2: the role checks of [post_job] and [apply_to_job] make an
    invariant of the store: from the empty store on, after any sequence
    of requests, every stored job belongs to a stored user whose role is
    "recruiter" and every stored application to a stored user whose role
    is "candidate"; and the same holds from any store that has the
    property. *)
Theorem owners_hold_the_right_role :
  forall (relay : Relay) (rs : list Request),
    roles_ok (db (serve relay rs initial_world))
    /\ (forall w, roles_ok (db w) -> roles_ok (db (serve relay rs w))).
Proof.
  intros relay rs.
  assert (Hserve : forall w, roles_ok (db w) -> roles_ok (db (serve relay rs w))).
  { induction rs as [|r rest IH]; intros w Hw; simpl.
    - exact Hw.
    - apply IH. apply roles_ok_step. exact Hw. }
  split; [|exact Hserve].
  apply Hserve. split; intros x [].
Qed.

Lemma owners_hold_the_right_role_witness :
  roles_ok (db initial_world)
  /\ roles_ok (db (serve all_delivered scenario_requests initial_world)).
Proof.
  assert (H0 : roles_ok (db initial_world)) by (split; intros x []).
  split; [exact H0 |].
  exact (proj2 (owners_hold_the_right_role all_delivered scenario_requests)
               initial_world H0).
Defined.

(** ** What a request leaves alone *)

Lemma apply_to_job_raises :
  forall relay request token w e,
    fst (apply_to_job relay request token w) = Raise e ->
    stdout (snd (apply_to_job relay request token w)) = stdout w
    /\ smtp_sessions (snd (apply_to_job relay request token w))
       = smtp_sessions w
    /\ ((exists status detail, e = HTTPException status detail) ->
        snd (apply_to_job relay request token w) = w).
Proof.
  intros relay request token w e.
  destruct (apply_to_job_cases relay request token w)
    as [H | [H | (u & j & Hu & Hrole & Hj)]].
  - rewrite H. intros _. auto.
  - rewrite H. intros _. auto.
  - rewrite (apply_to_job_found _ _ _ _ _ _ Hu Hrole Hj).
    destruct (find (fun x => user_id x =? job_recruiter_id j) (users (db w)))
      as [r|]; cbn [fst snd].
    + discriminate.
    + intros He. inversion He; subst. repeat split.
      intros (status & detail & Habs). discriminate Habs.
Qed.

(** X3: a request that is answered with an HTTPException (400, 401, 403
    or 404) has changed nothing: no row was stored, nothing was printed
    and no mail was attempted. *)
Theorem rejected_requests_change_nothing :
  forall (relay : Relay) (r : Request) (w : World) (status : Z)
         (detail : string),
    fst (app relay r w) = Raise (HTTPException status detail) ->
    snd (app relay r w) = w.
Proof.
  intros relay r w status detail.
  destruct r as [ | body | username pass | [token|] | [token|] body
                  | [token|] body | [token|] | [token|] jid | ];
    cbn [app oauth2_scheme];
    rewrite ?ret_bind, ?bind_ret_run; cbn [fst snd];
    try (intros _; reflexivity).
  - destruct (signup_cases body w) as [[_ H] | [_ H]]; rewrite H; cbn [fst snd].
    + reflexivity.
    + discriminate.
  - destruct (token_route_cases username pass w) as [H | (missing & _ & H)];
      rewrite H; cbn [fst snd]; [|reflexivity].
    destruct (login_cases username pass w) as [L | (u & _ & _ & _ & L)];
      rewrite L; reflexivity.
  - destruct (post_job_cases body token w) as [H | (u & _ & _ & _ & _ & H)];
      rewrite H; cbn [fst snd].
    + reflexivity.
    + discriminate.
  - destruct (fst (apply_to_job relay body token w)) as [m | e] eqn:E;
      [discriminate |].
    intros He. inversion He; subst.
    apply (apply_to_job_raises _ _ _ _ _ E). eauto.
  - destruct (list_applications_cases token w) as [H | (u & _ & _ & _ & H)];
      rewrite H; reflexivity.
  - destruct (list_applicants_cases jid token w) as [H | [H | H]];
      rewrite H; reflexivity.
Qed.

Lemma rejected_requests_change_nothing_witness :
  fst (app relay_down (POST_applications (Some "c@example.com")
                                         (mkApplyRequest 7))
           scenario_world)
  = Raise (HTTPException 404 "Job not found")
  /\ snd (app relay_down (POST_applications (Some "c@example.com")
                                            (mkApplyRequest 7))
              scenario_world)
     = scenario_world.
Proof.
  assert (H : fst (app relay_down
                       (POST_applications (Some "c@example.com")
                                          (mkApplyRequest 7))
                       scenario_world)
              = Raise (HTTPException 404 "Job not found")) by reflexivity.
  split; [exact H |].
  exact (rejected_requests_change_nothing _ _ _ _ _ H).
Defined.

(** X4: the routes without a write ([GET /], [POST /auth/token],
    [GET /jobs], [GET /applications], [GET /applicants],
    [POST /auth/logout]) leave the whole world as it was, for every input
    and whatever they answer. *)
Theorem read_only_routes_change_nothing :
  forall (relay : Relay) (r : Request) (w : World),
    is_read_only r = true -> snd (app relay r w) = w.
Proof.
  intros relay r w.
  destruct r as [ | body | username pass | [token|] | [token|] body
                  | [token|] body | [token|] | [token|] jid | ];
    cbn [app oauth2_scheme is_read_only];
    rewrite ?ret_bind, ?bind_ret_run; cbn [fst snd];
    try discriminate; try (intros _; reflexivity); intros _.
  - destruct (token_route_cases username pass w) as [H | (missing & _ & H)];
      rewrite H; cbn [fst snd]; [|reflexivity].
    destruct (login_cases username pass w) as [L | (u & _ & _ & _ & L)];
      rewrite L; reflexivity.
  - destruct (list_applications_cases token w) as [H | (u & _ & _ & _ & H)];
      rewrite H; reflexivity.
  - destruct (list_applicants_cases jid token w) as [H | [H | H]];
      rewrite H; reflexivity.
Qed.

Lemma read_only_routes_change_nothing_witness :
  is_read_only (GET_applications (Some "c@example.com")) = true
  /\ snd (app relay_down (GET_applications (Some "c@example.com"))
              scenario_world)
     = scenario_world.
Proof.
  split; [reflexivity |].
  exact (read_only_routes_change_nothing
           relay_down (GET_applications (Some "c@example.com"))
           scenario_world eq_refl).
Defined.

(** X5: each writing handler touches its own table only.  [signup] leaves
    jobs and applications alone, [post_job] leaves users and applications
    alone, and neither prints or mails; [apply_to_job] leaves users and
    jobs alone, and when it raises it has neither printed nor attempted
    any mail. *)
Theorem writes_stay_in_their_table :
  forall (relay : Relay) (w : World),
    (forall user,
        jobs (db (snd (signup user w))) = jobs (db w)
        /\ applications (db (snd (signup user w))) = applications (db w)
        /\ stdout (snd (signup user w)) = stdout w
        /\ smtp_sessions (snd (signup user w)) = smtp_sessions w)
    /\ (forall job token,
           users (db (snd (post_job job token w))) = users (db w)
           /\ applications (db (snd (post_job job token w)))
              = applications (db w)
           /\ stdout (snd (post_job job token w)) = stdout w
           /\ smtp_sessions (snd (post_job job token w)) = smtp_sessions w)
    /\ (forall request token,
           users (db (snd (apply_to_job relay request token w)))
           = users (db w)
           /\ jobs (db (snd (apply_to_job relay request token w)))
              = jobs (db w)
           /\ (forall e,
                  fst (apply_to_job relay request token w) = Raise e ->
                  stdout (snd (apply_to_job relay request token w))
                  = stdout w
                  /\ smtp_sessions (snd (apply_to_job relay request token w))
                     = smtp_sessions w)).
Proof.
  intros relay w. split; [|split].
  - intros user.
    destruct (signup_cases user w) as [[_ H] | [_ H]]; rewrite H;
      repeat split; reflexivity.
  - intros job token.
    destruct (post_job_cases job token w) as [H | (u & _ & _ & _ & _ & H)];
      rewrite H; repeat split; reflexivity.
  - intros request token. split; [|split].
    + destruct (apply_to_job_db relay request token w)
        as [H | (u & j & _ & _ & _ & H)]; rewrite H; reflexivity.
    + destruct (apply_to_job_db relay request token w)
        as [H | (u & j & _ & _ & _ & H)]; rewrite H; reflexivity.
    + intros e He.
      destruct (apply_to_job_raises _ _ _ _ _ He) as (Hout & Hsmtp & _).
      split; assumption.
Qed.

Lemma writes_stay_in_their_table_witness :
  fst (apply_to_job relay_down (mkApplyRequest 1) "r@example.com"
                    scenario_world)
  = Raise (HTTPException 403 "Not authorized")
  /\ smtp_sessions (snd (apply_to_job relay_down (mkApplyRequest 1)
                                      "r@example.com" scenario_world))
     = smtp_sessions scenario_world.
Proof.
  assert (H : fst (apply_to_job relay_down (mkApplyRequest 1) "r@example.com"
                                scenario_world)
              = Raise (HTTPException 403 "Not authorized")) by reflexivity.
  split; [exact H |].
  destruct (writes_stay_in_their_table relay_down scenario_world)
    as (_ & _ & Happly).
  destruct (Happly (mkApplyRequest 1) "r@example.com") as (_ & _ & Hraise).
  exact (proj2 (Hraise _ H)).
Defined.

(** ** No unhandled exception but one *)

(** X6: on a store satisfying the schema, a request other than
    [GET /applicants], served on its own, never ends in an unhandled
    exception.  It is answered normally, or with one of the five
    HTTPExceptions the handlers raise on purpose, or, for
    [POST /auth/token] with an empty form field and for no other request,
    with the framework's 422; the status is never 500.  No insert is
    refused by the store, no attribute is missing, and no failure of the
    mail relay escapes. *)
Theorem only_list_applicants_can_crash :
  forall (relay : Relay) (r : Request) (w : World),
    db_wf (db w) ->
    (forall authorization jid, r <> GET_applicants authorization jid) ->
    forall e,
      fst (app relay r w) = Raise e ->
      (In e deliberate_errors
       \/ exists username pass missing,
           r = POST_auth_token username pass
           /\ (username = "" \/ pass = "")
           /\ e = RequestValidationError missing)
      /\ status_of (fst (app relay r w)) <> 500.
Proof.
  intros relay r w Hwf Hroute e He.
  assert (Hkind : In e deliberate_errors
                  \/ exists username pass missing,
                      r = POST_auth_token username pass
                      /\ (username = "" \/ pass = "")
                      /\ e = RequestValidationError missing).
  { revert He.
    destruct r as [ | body | username pass | [token|] | [token|] body
                    | [token|] body | [token|] | [token|] jid | ];
      cbn [app oauth2_scheme];
      rewrite ?ret_bind, ?bind_ret_run; cbn [fst snd];
      try discriminate;
      try (intros He; inversion He; subst; left; simpl; tauto).
    - destruct (signup_cases body w) as [[_ H] | [_ H]]; rewrite H; cbn [fst];
        intros He; inversion He; subst. left. simpl. tauto.
    - destruct (token_route_cases username pass w)
        as [H | (missing & Hempty & H)]; rewrite H; cbn [fst].
      + destruct (login_cases username pass w) as [L | (u & _ & _ & _ & L)];
          rewrite L; cbn [fst]; intros He; inversion He; subst.
        left. simpl. tauto.
      + intros He. inversion He; subst. right.
        exists username, pass, missing. auto.
    - destruct (post_job_cases body token w) as [H | (u & _ & _ & _ & _ & H)];
        rewrite H; cbn [fst]; intros He; inversion He; subst.
      left. unfold not_authorized. simpl. tauto.
    - destruct (apply_to_job_cases relay body token w)
        as [H | [H | (u & j & Hu & Hrole & Hj)]].
      + rewrite H. cbn [fst]. intros He. inversion He; subst.
        left. unfold not_authorized. simpl. tauto.
      + rewrite H. cbn [fst]. intros He. inversion He; subst.
        left. unfold job_not_found. simpl. tauto.
      + rewrite (apply_to_job_found _ _ _ _ _ _ Hu Hrole Hj).
        apply find_some in Hj. destruct Hj as [Hj _].
        destruct (recruiter_resolves _ _ Hwf Hj) as (rc & _ & _ & Hfind).
        rewrite Hfind. cbn [fst]. discriminate.
    - destruct (list_applications_cases token w) as [H | (u & _ & _ & _ & H)];
        rewrite H; cbn [fst]; intros He; inversion He; subst.
      left. unfold not_authorized. simpl. tauto.
    - exfalso. apply (Hroute (Some token) jid). reflexivity. }
  split; [exact Hkind |].
  rewrite He.
  destruct Hkind as [Hin | (username & pass & missing & _ & _ & ->)].
  - unfold deliberate_errors in Hin. simpl in Hin.
    destruct Hin as [<- | [<- | [<- | [<- | [<- | []]]]]]; simpl; lia.
  - simpl. lia.
Qed.

Lemma only_list_applicants_can_crash_witness :
  db_wf (db scenario_world)
  /\ fst (app relay_down (POST_auth_token "r@example.com" "") scenario_world)
     = Raise (RequestValidationError ["password"])
  /\ status_of (fst (app relay_down (POST_auth_token "r@example.com" "")
                         scenario_world))
     <> 500
  /\ fst (app relay_down (POST_signup recruiter_R) scenario_world)
     = Raise (HTTPException 400 "User already exists")
  /\ In (HTTPException 400 "User already exists") deliberate_errors.
Proof.
  assert (Hwf : db_wf (db scenario_world)) by reflexivity.
  assert (Hform : fst (app relay_down (POST_auth_token "r@example.com" "")
                           scenario_world)
                  = Raise (RequestValidationError ["password"]))
    by reflexivity.
  assert (H : fst (app relay_down (POST_signup recruiter_R) scenario_world)
              = Raise (HTTPException 400 "User already exists"))
    by reflexivity.
  split; [exact Hwf |]. split; [exact Hform |]. split.
  - apply (only_list_applicants_can_crash
             relay_down (POST_auth_token "r@example.com" "") scenario_world
             Hwf (fun a j Habs => eq_ind (POST_auth_token "r@example.com" "")
                                         (fun r => match r with
                                                   | GET_applicants _ _ => False
                                                   | _ => True
                                                   end) I _ Habs)
             _ Hform).
  - split; [exact H |].
    destruct (only_list_applicants_can_crash
                relay_down (POST_signup recruiter_R) scenario_world Hwf
                (fun a j Habs => eq_ind (POST_signup recruiter_R)
                                        (fun r => match r with
                                                  | GET_applicants _ _ => False
                                                  | _ => True
                                                  end) I _ Habs)
                _ H) as [[Hin | (u & p & m & Habs & _)] _].
    + exact Hin.
    + discriminate Habs.
Defined.

(** ** Accounts over time *)

Lemma login_found :
  forall username pass w u,
    find (fun x => (user_email x =? username)%string
                   && (user_password x =? pass)%string)
         (users (db w)) = Some u ->
    login username pass w = (Ok (mkToken username "bearer"), w).
Proof.
  intros username pass w u H. unfold login, bind, query. rewrite H.
  apply find_some in H. destruct H as [_ H].
  apply andb_true_iff in H. destruct H as [He _].
  apply String.eqb_eq in He. rewrite He. reflexivity.
Qed.

Lemma login_ok_found :
  forall username pass w t,
    fst (login username pass w) = Ok t ->
    exists u,
      find (fun x => (user_email x =? username)%string
                     && (user_password x =? pass)%string)
           (users (db w)) = Some u.
Proof.
  intros username pass w t. unfold login, bind, query.
  destruct (find _ _) as [u|]; [eauto | discriminate].
Qed.





(** X8: a login that succeeds keeps succeeding, with the same token,
    after any sequence of further requests: no route removes an account
    or changes its password. *)
Theorem login_survives_later_requests :
  forall (relay : Relay) (username pass : string) (w : World) (t : Token),
    fst (login username pass w) = Ok t ->
    forall rs,
      login username pass (serve relay rs w) = (Ok t, serve relay rs w).
Proof.
  intros relay username pass w t Hok rs.
  destruct (login_ok_found _ _ _ _ Hok) as [u Hfind].
  rewrite (login_found _ _ _ _ Hfind) in Hok. cbn [fst] in Hok.
  inversion Hok; subst.
  destruct (serve_extends relay rs w) as ([us Hus] & _ & _).
  apply (login_found _ _ _ u). rewrite Hus. apply find_app_Some. exact Hfind.
Qed.

Lemma login_survives_later_requests_witness :
  fst (login "r@example.com" "secret-r"
             (mkWorld (mkDB [row_R] [] []) [] []))
  = Ok (mkToken "r@example.com" "bearer")
  /\ fst (login "r@example.com" "secret-r" scenario_world)
     = Ok (mkToken "r@example.com" "bearer").
Proof.
  assert (H : fst (login "r@example.com" "secret-r"
                         (mkWorld (mkDB [row_R] [] []) [] []))
              = Ok (mkToken "r@example.com" "bearer")) by reflexivity.
  split; [exact H |].
  exact (f_equal fst
           (login_survives_later_requests
              all_delivered _ _ _ _ H
              [POST_jobs (Some "r@example.com") job_J1;
               POST_signup candidate_C;
               POST_applications (Some "c@example.com") (mkApplyRequest 1)])).
Defined.

(** X9: on a store satisfying the schema, a password that is wrong for a
    registered email stays wrong after any sequence of requests: the
    email cannot be registered a second time and no route rewrites the
    stored password. *)
Theorem wrong_password_stays_wrong :
  forall (relay : Relay) (username pass : string) (w : World),
    db_wf (db w) ->
    In username (map user_email (users (db w))) ->
    fst (login username pass w)
    = Raise (HTTPException 400 "Invalid credentials") ->
    forall rs,
      login username pass (serve relay rs w)
      = (Raise (HTTPException 400 "Invalid credentials"), serve relay rs w).
Proof.
  intros relay username pass w Hwf Hreg Hfail rs.
  destruct (login_cases username pass (serve relay rs w))
    as [H | (v & Hv & Hve & Hvp & _)]; [exact H | exfalso].
  apply in_map_iff in Hreg. destruct Hreg as (u & Hue & Hu).
  pose proof (serve_wf relay rs w Hwf) as Hwf'.
  apply constraints_hold_spec in Hwf'.
  destruct (serve_extends relay rs w) as ([us Hus] & _ & _).
  assert (Hu' : In u (users (db (serve relay rs w)))).
  { rewrite Hus. apply in_or_app. left. exact Hu. }
  assert (v = u) as ->.
  { apply (same_key_same_row _ _ user_email String.eqb String.eqb_eq
                             (users (db (serve relay rs w))));
      [apply (emails_nodup _ Hwf') | exact Hv | exact Hu' | congruence]. }
  unfold login, bind, query in Hfail.
  destruct (find _ (users (db w))) as [x|] eqn:E; [discriminate |].
  apply find_none with (x := u) in E; [|exact Hu].
  rewrite Hue, Hvp, !String.eqb_refl in E. discriminate.
Qed.

Lemma wrong_password_stays_wrong_witness :
  db_wf (db (mkWorld (mkDB [row_R] [] []) [] []))
  /\ In "r@example.com"
        (map user_email (users (db (mkWorld (mkDB [row_R] [] []) [] []))))
  /\ login "r@example.com" "other"
           (serve all_delivered
                  [POST_signup (mkSignupRequest "r@example.com" "other"
                                                "candidate")]
                  (mkWorld (mkDB [row_R] [] []) [] []))
     = (Raise (HTTPException 400 "Invalid credentials"),
        mkWorld (mkDB [row_R] [] []) [] []).
Proof.
  assert (Hwf : db_wf (db (mkWorld (mkDB [row_R] [] []) [] [])))
    by reflexivity.
  assert (Hin : In "r@example.com"
                   (map user_email
                        (users (db (mkWorld (mkDB [row_R] [] []) [] [])))))
    by (simpl; tauto).
  split; [exact Hwf |]. split; [exact Hin |].
  exact (wrong_password_stays_wrong
           all_delivered "r@example.com" "other" _ Hwf Hin eq_refl
           [POST_signup (mkSignupRequest "r@example.com" "other" "candidate")]).
Defined.

(** ** Credentials over time *)

(** X10: a bearer credential never expires and a role is never revoked.
    A credential with which [post_job] has succeeded once posts
    successfully after any sequence of further requests; and, on a store
    satisfying the schema, a credential with which [apply_to_job] has
    succeeded for a job id applies successfully to that id afterwards. *)
Theorem granted_rights_are_permanent :
  forall (relay : Relay) (token : string) (w : World) (m : Message),
    (forall job,
        fst (post_job job token w) = Ok m ->
        forall rs job',
          fst (post_job job' token (serve relay rs w))
          = Ok (mkMessage "Job posted successfully"))
    /\ (forall request,
           db_wf (db w) ->
           fst (apply_to_job relay request token w) = Ok m ->
           forall rs,
             fst (apply_to_job relay request token (serve relay rs w))
             = Ok (mkMessage "Applied successfully")).
Proof.
  intros relay token w m. split.
  - intros job Hok rs job'.
    destruct (post_job_cases job token w) as [H | (u & _ & _ & Hrole & Hu & _)].
    + rewrite H in Hok. discriminate.
    + destruct (serve_extends relay rs w) as ([us Hus] & _ & _).
      rewrite (post_job_found job' token (serve relay rs w) u);
        [reflexivity | | exact Hrole].
      rewrite Hus. apply find_app_Some. exact Hu.
  - intros request Hwf Hok rs.
    destruct (apply_to_job_cases relay request token w)
      as [H | [H | (u & j & Hu & Hrole & Hj)]].
    + rewrite H in Hok. discriminate.
    + rewrite H in Hok. discriminate.
    + destruct (serve_extends relay rs w) as ([us Hus] & [js Hjs] & _).
      pose proof (serve_wf relay rs w Hwf) as Hwf'.
      assert (Hu' : find (fun x => user_email x =? token)%string
                         (users (db (serve relay rs w))) = Some u)
        by (rewrite Hus; apply find_app_Some; exact Hu).
      assert (Hj' : find (fun x => job_id x =? request_job_id request)
                         (jobs (db (serve relay rs w))) = Some j)
        by (rewrite Hjs; apply find_app_Some; exact Hj).
      rewrite (apply_to_job_found _ _ _ _ _ _ Hu' Hrole Hj').
      apply find_some in Hj'. destruct Hj' as [Hjin _].
      destruct (recruiter_resolves _ _ Hwf' Hjin) as (r & _ & _ & Hr).
      rewrite Hr. reflexivity.
Qed.

Lemma granted_rights_are_permanent_witness :
  fst (post_job job_J1 "r@example.com" (mkWorld (mkDB [row_R] [] []) [] []))
  = Ok (mkMessage "Job posted successfully")
  /\ fst (post_job (mkJobPostRequest "Second" "job") "r@example.com"
                   scenario_world)
     = Ok (mkMessage "Job posted successfully").
Proof.
  assert (H : fst (post_job job_J1 "r@example.com"
                            (mkWorld (mkDB [row_R] [] []) [] []))
              = Ok (mkMessage "Job posted successfully")) by reflexivity.
  split; [exact H |].
  exact (proj1 (granted_rights_are_permanent all_delivered "r@example.com"
                                             _ _)
               job_J1 H
               [POST_jobs (Some "r@example.com") job_J1;
                POST_signup candidate_C;
                POST_applications (Some "c@example.com") (mkApplyRequest 1)]
               (mkJobPostRequest "Second" "job")).
Defined.

(** ** Listing a candidate's applications *)

Lemma applications_resolve :
  forall (js : list Job) (apps : list Application),
    (forall a, In a apps -> In (application_job_id a) (map job_id js)) ->
    exists found,
      map (fun a => find (fun j => job_id j =? application_job_id a) js) apps
      = map Some found
      /\ map job_id found = map application_job_id apps
      /\ (forall j, In j found -> In j js).
Proof.
  intros js apps. induction apps as [|a rest IH]; intros Hfk.
  - exists []. simpl. repeat split. intros j [].
  - destruct IH as (found & Hmap & Hids & Hin).
    { intros b Hb. apply Hfk. right. exact Hb. }
    destruct (find_key_In job_id Z.eqb Z.eqb_eq js (application_job_id a))
      as [j Hj].
    { apply Hfk. left. reflexivity. }
    exists (j :: found). simpl. rewrite Hj, Hmap.
    apply (find_key_Some job_id Z.eqb Z.eqb_eq) in Hj. destruct Hj as [Hjin Hjid].
    split; [reflexivity |]. split.
    + rewrite Hjid, Hids. reflexivity.
    + intros x [<- | Hx]; auto.
Qed.

(** X11: on a store satisfying the schema, [list_applications] called
    with a stored candidate's credential returns, without changing
    anything, one stored job per application of that candidate, in the
    order of the applications and with repetitions: the ids of the jobs
    returned are the [job_id]s of the candidate's applications. *)
Theorem list_applications_returns_applied_jobs :
  forall (w : World) (u : User),
    db_wf (db w) -> In u (users (db w)) -> user_role u = "candidate" ->
    exists found,
      list_applications (user_email u) w = (Ok (map Some found), w)
      /\ map job_id found
         = map application_job_id
               (filter (fun a => application_candidate_id a =? user_id u)
                       (applications (db w)))
      /\ (forall j, In j found -> In j (jobs (db w))).
Proof.
  intros w u Hwf Hu Hrole.
  rewrite (list_applications_found _ _ _ (credential_resolves _ _ Hwf Hu) Hrole).
  apply constraints_hold_spec in Hwf.
  destruct (applications_resolve
              (jobs (db w))
              (filter (fun a => application_candidate_id a =? user_id u)
                      (applications (db w))))
    as (found & Hmap & Hids & Hin).
  { intros a Ha. apply filter_In in Ha. destruct Ha as [Ha _].
    apply (applied_job_exists _ Hwf). exact Ha. }
  exists found. unfold applied_jobs. rewrite Hmap. auto.
Qed.

Lemma list_applications_returns_applied_jobs_witness :
  db_wf (db scenario_world)
  /\ In row_C (users (db scenario_world))
  /\ user_role row_C = "candidate"
  /\ exists found,
      list_applications "c@example.com" scenario_world
      = (Ok (map Some found), scenario_world)
      /\ map job_id found = [1].
Proof.
  assert (Hwf : db_wf (db scenario_world)) by reflexivity.
  assert (Hu : In row_C (users (db scenario_world))) by (simpl; tauto).
  split; [exact Hwf |]. split; [exact Hu |]. split; [reflexivity |].
  destruct (list_applications_returns_applied_jobs
              scenario_world row_C Hwf Hu eq_refl)
    as (found & Hrun & Hids & _).
  exists found. split; [exact Hrun | exact Hids].
Defined.

(** X12: on a store satisfying the schema, when a stored candidate
    applies to a stored job, the candidate's next [list_applications] is
    the previous listing followed by that job. *)
Theorem apply_then_list_applications :
  forall (relay : Relay) (w : World) (u : User) (j : Job),
    db_wf (db w) -> In u (users (db w)) -> user_role u = "candidate" ->
    In j (jobs (db w)) ->
    exists before,
      fst (list_applications (user_email u) w) = Ok before
      /\ fst (list_applications
                (user_email u)
                (snd (apply_to_job relay (mkApplyRequest (job_id j))
                                   (user_email u) w)))
         = Ok (before ++ [Some j])%list.
Proof.
  intros relay w u j Hwf Hu Hrole Hj.
  exists (applied_jobs (db w) u). split.
  - rewrite (list_applications_found
               _ _ _ (credential_resolves _ _ Hwf Hu) Hrole).
    reflexivity.
  - destruct (apply_to_job_run relay w u j Hwf Hu Hrole Hj)
      as (r & _ & _ & Hrun).
    rewrite Hrun. cbn [snd].
    rewrite (list_applications_found _ _ u).
    + cbn [fst]. f_equal.
      unfold applied_jobs, applied_world. cbn [db users jobs applications].
      rewrite filter_app, map_app. f_equal.
      cbn [filter application_candidate_id]. rewrite Z.eqb_refl.
      cbn [map application_job_id].
      rewrite (job_resolves _ _ Hwf Hj). reflexivity.
    + unfold applied_world. cbn [db users].
      apply credential_resolves; assumption.
    + exact Hrole.
Qed.

Lemma apply_then_list_applications_witness :
  db_wf (db scenario_world)
  /\ In row_C (users (db scenario_world))
  /\ user_role row_C = "candidate"
  /\ In row_J1 (jobs (db scenario_world))
  /\ exists before,
      fst (list_applications "c@example.com" scenario_world) = Ok before
      /\ fst (list_applications
                "c@example.com"
                (snd (apply_to_job relay_down (mkApplyRequest 1)
                                   "c@example.com" scenario_world)))
         = Ok (before ++ [Some row_J1])%list.
Proof.
  assert (Hwf : db_wf (db scenario_world)) by reflexivity.
  assert (Hu : In row_C (users (db scenario_world))) by (simpl; tauto).
  assert (Hj : In row_J1 (jobs (db scenario_world))) by (simpl; tauto).
  split; [exact Hwf |]. split; [exact Hu |]. split; [reflexivity |].
  split; [exact Hj |].
  exact (apply_then_list_applications
           relay_down scenario_world row_C row_J1 Hwf Hu eq_refl Hj).
Defined.

(** ** Listing applicants *)

(** X13: [list_applicants] never returns a list.  For every job id,
    every credential and every world it raises "Not authorized" (403),
    "Job not found" (404) or the AttributeError for the missing
    [Job.applications], and it leaves the world as it was. *)
Theorem list_applicants_never_returns_a_list :
  forall (jid : Z) (token : string) (w : World),
    snd (list_applicants jid token w) = w
    /\ (forall l, fst (list_applicants jid token w) <> Ok l)
    /\ In (fst (list_applicants jid token w))
          [ Raise (HTTPException 403 "Not authorized");
            Raise (HTTPException 404 "Job not found");
            Raise (AttributeError
                     "'Job' object has no attribute 'applications'") ].
Proof.
  intros jid token w.
  destruct (list_applicants_cases jid token w) as [H | [H | H]]; rewrite H;
    cbn [fst snd]; (split; [reflexivity |]); (split; [discriminate |]);
    simpl; tauto.
Qed.

(** ** The role gate for every caller *)

(** X14: on a store satisfying the schema, [apply_to_job] and
    [list_applications] raise 403 and change nothing for every credential
    that is not the email of a stored user with role "candidate" (an
    unknown credential, a recruiter's), and [list_applicants] does so for
    every credential that is not the email of a stored user with role
    "recruiter"; this holds for every request body and job id. *)
Theorem role_gate_rejects_everyone_else :
  forall (relay : Relay) (w : World),
    db_wf (db w) ->
    (forall token,
        ~ In token (map user_email (users (db w))) ->
        (forall request,
            apply_to_job relay request token w
            = (Raise (HTTPException 403 "Not authorized"), w))
        /\ list_applications token w
           = (Raise (HTTPException 403 "Not authorized"), w)
        /\ (forall jid,
               list_applicants jid token w
               = (Raise (HTTPException 403 "Not authorized"), w)))
    /\ (forall u,
           In u (users (db w)) -> user_role u <> "candidate" ->
           (forall request,
               apply_to_job relay request (user_email u) w
               = (Raise (HTTPException 403 "Not authorized"), w))
           /\ list_applications (user_email u) w
              = (Raise (HTTPException 403 "Not authorized"), w))
    /\ (forall u,
           In u (users (db w)) -> user_role u <> "recruiter" ->
           forall jid,
             list_applicants jid (user_email u) w
             = (Raise (HTTPException 403 "Not authorized"), w)).
Proof.
  intros relay w Hwf. split; [|split].
  - intros token Hout.
    pose proof (lacks_role_unknown (db w) token "candidate" Hout) as Lc.
    pose proof (lacks_role_unknown (db w) token "recruiter" Hout) as Lr.
    split; [|split].
    + intros request. apply apply_to_job_forbidden. exact Lc.
    + apply list_applications_forbidden. exact Lc.
    + intros jid. apply list_applicants_forbidden. exact Lr.
  - intros u Hu Hrole.
    pose proof (lacks_role_stored _ _ _ Hwf Hu Hrole) as Lc. split.
    + intros request. apply apply_to_job_forbidden. exact Lc.
    + apply list_applications_forbidden. exact Lc.
  - intros u Hu Hrole jid. apply list_applicants_forbidden.
    apply lacks_role_stored; assumption.
Qed.

Lemma role_gate_rejects_everyone_else_witness :
  db_wf (db scenario_world)
  /\ In row_R (users (db scenario_world))
  /\ user_role row_R <> "candidate"
  /\ apply_to_job relay_down (mkApplyRequest 1) "r@example.com" scenario_world
     = (Raise (HTTPException 403 "Not authorized"), scenario_world)
  /\ ~ In "nobody@example.com" (map user_email (users (db scenario_world)))
  /\ list_applications "nobody@example.com" scenario_world
     = (Raise (HTTPException 403 "Not authorized"), scenario_world).
Proof.
  assert (Hwf : db_wf (db scenario_world)) by reflexivity.
  assert (Hu : In row_R (users (db scenario_world))) by (simpl; tauto).
  assert (Hrole : user_role row_R <> "candidate") by discriminate.
  assert (Hout : ~ In "nobody@example.com"
                      (map user_email (users (db scenario_world)))).
  { simpl. intros [H | [H | []]]; discriminate. }
  destruct (role_gate_rejects_everyone_else relay_down scenario_world Hwf)
    as (Hunknown & Hother & _).
  split; [exact Hwf |]. split; [exact Hu |]. split; [exact Hrole |].
  split; [exact (proj1 (Hother row_R Hu Hrole) (mkApplyRequest 1)) |].
  split; [exact Hout |].
  exact (proj1 (proj2 (Hunknown "nobody@example.com" Hout))).
Defined.

(** ** Many signups *)



(** ** Notifications *)

(** X16: [send_email] never raises.  Whatever the recipient, subject and
    body, and whether the SMTP session fails on connecting, on logging in
    or on sending, it returns normally, leaves the tables alone, records
    exactly one session carrying the message "Subject: <subject>", an
    empty line and the body, and prints one "Error sending email" line
    exactly when the session failed. *)
Theorem send_email_never_raises :
  forall (relay : Relay) (to_email subject body : string) (w : World),
    let out := send_email relay to_email subject body w in
    let outcome := relay (List.length (smtp_sessions w)) in
    fst out = Ok tt
    /\ db (snd out) = db w
    /\ smtp_sessions (snd out)
       = (smtp_sessions w
          ++ [(mkMail to_email
                      ("Subject: " ++ subject ++ newline ++ newline ++ body),
               outcome)])%list
    /\ (outcome = Delivered -> stdout (snd out) = stdout w)
    /\ (outcome <> Delivered ->
        exists reason,
          stdout (snd out)
          = (stdout w ++ [("Error sending email: " ++ reason)%string])%list).
Proof.
  intros relay to_email subject body w out outcome.
  unfold out. rewrite send_email_run. cbn [fst snd db stdout smtp_sessions].
  fold outcome. repeat split.
  - intros ->. simpl. apply app_nil_r.
  - intros Hfail. destruct outcome as [ | reason | reason | reason ];
      [contradiction | | |]; exists reason; reflexivity.
Qed.

Lemma send_email_never_raises_witness :
  relay_down (List.length (smtp_sessions scenario_world)) <> Delivered
  /\ exists reason,
      stdout (snd (send_email relay_down "r@example.com" "Hello" "World"
                              scenario_world))
      = (stdout scenario_world ++ [("Error sending email: " ++ reason)%string])%list.
Proof.
  assert (H : relay_down (List.length (smtp_sessions scenario_world))
              <> Delivered) by discriminate.
  split; [exact H |].
  exact (proj2 (proj2 (proj2 (proj2
           (send_email_never_raises relay_down "r@example.com" "Hello"
                                    "World" scenario_world)))) H).
Defined.

(** X17: on a store satisfying the schema, when a stored recruiter posts
    a job and a stored candidate then applies to it (the job's id is the
    next free one), the application succeeds, and the two mails attempted
    go first to the email of the recruiter who posted the job, naming the
    candidate and the posted title, and then to the candidate. *)
Theorem posted_job_notifies_its_poster :
  forall (relay : Relay) (w : World) (u c : User) (job : JobPostRequest),
    db_wf (db w) ->
    In u (users (db w)) -> user_role u = "recruiter" ->
    In c (users (db w)) -> user_role c = "candidate" ->
    let posted := snd (post_job job (user_email u) w) in
    let new_id := next_id (map job_id (jobs (db w))) in
    let n := List.length (smtp_sessions w) in
    let out := apply_to_job relay (mkApplyRequest new_id) (user_email c)
                            posted in
    fst out = Ok (mkMessage "Applied successfully")
    /\ smtp_sessions (snd out)
       = (smtp_sessions w
          ++ [(mkMail (user_email u)
                      (application_received (user_email c) (title job)),
               relay n);
              (mkMail (user_email c) (application_submitted (title job)),
               relay (S n))])%list.
Proof.
  intros relay w u c job Hwf Hu Hru Hc Hrc posted new_id n out.
  assert (Hposted : posted = posted_world w u job)
    by (unfold posted; rewrite (post_job_run job w u Hwf Hu Hru); reflexivity).
  assert (Hwf1 : db_wf (db (posted_world w u job))).
  { rewrite <- Hposted. unfold posted.
    eapply db_step_wf; [apply post_job_step | exact Hwf]. }
  set (j := mkJob new_id (title job) (description job) (user_id u)).
  assert (Hj : In j (jobs (db (posted_world w u job)))).
  { cbn [posted_world db jobs]. apply in_or_app. right. left. reflexivity. }
  destruct (apply_to_job_run relay (posted_world w u job) c j Hwf1 Hc Hrc Hj)
    as (r & Hr & Hrid & Hrun).
  assert (r = u) as ->.
  { apply constraints_hold_spec in Hwf.
    apply (same_key_same_row _ _ user_id Z.eqb Z.eqb_eq (users (db w)));
      [apply (user_ids_nodup _ Hwf) | exact Hr | exact Hu | exact Hrid]. }
  unfold out. rewrite Hposted.
  change (mkApplyRequest new_id) with (mkApplyRequest (job_id j)).
  rewrite Hrun. split; reflexivity.
Qed.

Lemma posted_job_notifies_its_poster_witness :
  db_wf (db scenario_world)
  /\ In row_R (users (db scenario_world)) /\ user_role row_R = "recruiter"
  /\ In row_C (users (db scenario_world)) /\ user_role row_C = "candidate"
  /\ fst (apply_to_job flaky_relay (mkApplyRequest 2) "c@example.com"
                       (snd (post_job (mkJobPostRequest "Second" "job")
                                      "r@example.com" scenario_world)))
     = Ok (mkMessage "Applied successfully").
Proof.
  assert (Hwf : db_wf (db scenario_world)) by reflexivity.
  assert (Hu : In row_R (users (db scenario_world))) by (simpl; tauto).
  assert (Hc : In row_C (users (db scenario_world))) by (simpl; tauto).
  split; [exact Hwf |]. split; [exact Hu |]. split; [reflexivity |].
  split; [exact Hc |]. split; [reflexivity |].
  exact (proj1 (posted_job_notifies_its_poster
                  flaky_relay scenario_world row_R row_C
                  (mkJobPostRequest "Second" "job")
                  Hwf Hu eq_refl Hc eq_refl)).
Defined.
